(** * Sub-pixel extremum localisation (DIPlib, [src/analysis/subpixel_location.cpp])

    A shallow embedding of [quadratic_fit_3x3], [quadratic_fit_3x3x3],
    [log_transform], [ParseMethod], [SubpixelLocationInternal],
    [SubpixelLocation] and [MeanShift], followed by the properties
    established about them.

    Numbers.  [dfloat] (C++ [double]) is embedded as the real numbers: every
    arithmetic operation is exact, there is no rounding, no overflow and no
    NaN.  The only operation of the source that leaves the real numbers on
    real inputs is [std::log] of a non-positive argument (every division of
    the source is guarded by a test of its divisor); the embedding stops
    there with the outcome [NonReal] instead of inventing a value.
    [dip::uint] is embedded as [N], the one unsigned subtraction of the
    source being written with its 64-bit wrap-around. *)

From Stdlib Require Import Reals Lra List String NArith ZArith Lia Bool PeanoNat.
Import ListNotations.

Open Scope R_scope.

(** ** Numbers and comparisons *)

(** [dfloat] is the type of the real numbers. *)
Notation dfloat := R (only parsing).

Definition Rltb (a b : dfloat) : bool := if Rlt_dec a b then true else false.
Definition Rleb (a b : dfloat) : bool := if Rle_dec a b then true else false.
Definition Reqb (a b : dfloat) : bool := if Req_dec_T a b then true else false.

Notation "a <? b" := (Rltb a b) : R_scope.
Notation "a <=? b" := (Rleb a b) : R_scope.
Notation "a =? b" := (Reqb a b) : R_scope.
Notation "a >? b" := (Rltb b a) (at level 70, only parsing) : R_scope.

(** [std::min( a, b )] is [( b < a ) ? b : a], [std::max( a, b )] is
    [( a < b ) ? b : a]. *)
Definition std_min (a b : dfloat) : dfloat := if b <? a then b else a.
Definition std_max (a b : dfloat) : dfloat := if a <? b then b else a.

(** [dip::uint] subtraction, modulo 2^64. *)
Definition uint_sub (a b : N) : N := ((a + 2 ^ 64 - b mod 2 ^ 64) mod 2 ^ 64)%N.

(** [static_cast< dfloat >] of an unsigned integer. *)
Definition to_dfloat (n : N) : dfloat := IZR (Z.of_N n).

Definition UnsignedArray := list N.
Definition IntegerArray := list Z.
Definition FloatArray := list dfloat.

(** ** Errors and outcomes *)

Inductive Error : Type :=
| IMAGE_NOT_FORGED
| IMAGE_NOT_SCALAR
| DATA_TYPE_NOT_SUPPORTED
| DIMENSIONALITY_NOT_SUPPORTED
| ARRAY_PARAMETER_WRONG_LENGTH
| INDEX_OUT_OF_RANGE
| ILLEGAL_DIMENSIONALITY
| NTENSORELEM_DONT_MATCH
| PARAMETER_OUT_OF_RANGE
| INVALID_FLAG (flag : string)
| OTHER_ERROR (message : string).

(** What a call of the source does: it returns, it throws, or (embedding
    only) it took the logarithm of a non-positive number. *)
Inductive outcome (A : Type) : Type :=
| Ok (a : A)
| Throw (e : Error)
| NonReal.

Arguments Ok {A} a.
Arguments Throw {A} e.
Arguments NonReal {A}.

Definition bind {A B : Type} (m : outcome A) (k : A -> outcome B) : outcome B :=
  match m with
  | Ok a => k a
  | Throw e => Throw e
  | NonReal => NonReal
  end.

Definition omap {A B : Type} (f : A -> B) (m : outcome A) : outcome B :=
  bind m (fun a => Ok (f a)).

Notation "x <- m ;; k" := (bind m (fun x => k))
  (at level 61, m at next level, right associativity).

(** [DIP_THROW_IF( cond, e )] followed by the rest of the function. *)
Definition THROW_IF {A : Type} (cond : bool) (e : Error) (rest : outcome A) : outcome A :=
  if cond then Throw e else rest.

(** [for( dip::uint ii = lo; ii < lo + count; ++ii ) body] over a state. *)
Fixpoint for_loop {S : Type} (body : nat -> S -> outcome S) (ii count : nat) (s : S)
  : outcome S :=
  match count with
  | O => Ok s
  | Datatypes.S c => s' <- body ii s ;; for_loop body (Datatypes.S ii) c s'
  end.

(** [a[ ii ] = v] on an array held as a list; the source never writes out of
    range, where this does nothing. *)
Fixpoint assign (ii : nat) (v : dfloat) (a : FloatArray) : FloatArray :=
  match a, ii with
  | [], _ => []
  | _ :: r, O => v :: r
  | x :: r, Datatypes.S i => x :: assign i v r
  end.

(** ** The least-squares fits *)

(** The inner loop [for jj: a[ ii ] += w[ kk++ ] * t[ jj ]]; returns the sum
    and the advanced [kk]. *)
Fixpoint accumulate (w t : list dfloat) (kk jj count : nat) (acc : dfloat)
  : dfloat * nat :=
  match count with
  | O => (acc, kk)
  | S c => accumulate w t (S kk) (S jj) c (acc + nth kk w 0 * nth jj t 0)
  end.

(** The outer loop [for ii: a[ ii ] = 0; ...; a[ ii ] = a[ ii ] / divisor]. *)
Fixpoint least_squares (w t : list dfloat) (cols : nat) (divisor : dfloat)
  (kk rows : nat) : list dfloat :=
  match rows with
  | O => []
  | S r =>
      let '(acc, kk') := accumulate w t kk 0 cols 0 in
      (acc / divisor) :: least_squares w t cols divisor kk' r
  end.

(** The table [w] of [quadratic_fit_3x3]: [inv(G'*G)*G' * 6], row by row. *)
Definition w_3x3 : list dfloat :=
  [ -2/3;  4/3; -2/3;  4/3; 10/3;  4/3; -2/3;  4/3; -2/3;
    -1  ;  0  ;  1  ; -1  ;  0  ;  1  ; -1  ;  0  ;  1  ;
    -1  ; -1  ; -1  ;  0  ;  0  ;  0  ;  1  ;  1  ;  1  ;
     1  ; -2  ;  1  ;  1  ; -2  ;  1  ;  1  ; -2  ;  1  ;
     1  ;  1  ;  1  ; -2  ; -2  ; -2  ;  1  ;  1  ;  1  ;
     3/2;  0  ; -3/2;  0  ;  0  ;  0  ; -3/2;  0  ;  3/2 ].

(** The out-parameters of [quadratic_fit_3x3] together with its [bool]. *)
Record fit_3x3 : Type := mk_fit_3x3 {
  fit2_ok : bool;
  fit2_x : dfloat;
  fit2_y : dfloat;
  fit2_val : dfloat
}.

(** The second half of [quadratic_fit_3x3], from the coefficients on:
    the solution of the 2x2 system, the tolerance test, the value. *)
Definition solve_2d (a0 a1 a2 a3 a4 a5 : dfloat) (x y val : dfloat) : fit_3x3 :=
  let denom := a5 * a5 - 4 * a3 * a4 in
  if denom =? 0 then mk_fit_3x3 false x y val
  else
    let x := (2 * a4 * a1 - a5 * a2) / denom in
    let y := (2 * a3 * a2 - a5 * a1) / denom in
    if (x <? -0.75) || (x >? 0.75) || (y <? -0.75) || (y >? 0.75)
    then mk_fit_3x3 false x y val
    else
      mk_fit_3x3 true x y
        (a0 + a1 * x + a2 * y + a3 * x * x + a4 * y * y + a5 * x * y).

(** [quadratic_fit_3x3( t, &x, &y, &val )]: [x], [y], [val] are the values
    the caller's variables hold before the call; a [false] return leaves
    [val] as it was. *)
Definition quadratic_fit_3x3 (t : list dfloat) (x y val : dfloat) : fit_3x3 :=
  let a := least_squares w_3x3 t 9 6 0 6 in
  solve_2d (nth 0 a 0) (nth 1 a 0) (nth 2 a 0) (nth 3 a 0) (nth 4 a 0) (nth 5 a 0)
    x y val.

(** The table [w] of [quadratic_fit_3x3x3]: [inv(G'*G)*G' * 18]. *)
Definition w_3x3x3 : list dfloat :=
  [
    -4/3;  2/3; -4/3;  2/3;  8/3;  2/3; -4/3;  2/3; -4/3;  2/3;  8/3;  2/3;  8/3; 14/3;  8/3;  2/3;  8/3;  2/3; -4/3;  2/3; -4/3;  2/3;  8/3;  2/3; -4/3;  2/3; -4/3;
      -1;    0;    1;   -1;    0;    1;   -1;    0;    1;   -1;    0;    1;   -1;    0;    1;   -1;    0;    1;   -1;    0;    1;   -1;    0;    1;   -1;    0;    1;
      -1;   -1;   -1;    0;    0;    0;    1;    1;    1;   -1;   -1;   -1;    0;    0;    0;    1;    1;    1;   -1;   -1;   -1;    0;    0;    0;    1;    1;    1;
      -1;   -1;   -1;   -1;   -1;   -1;   -1;   -1;   -1;    0;    0;    0;    0;    0;    0;    0;    0;    0;    1;    1;    1;    1;    1;    1;    1;    1;    1;
       1;   -2;    1;    1;   -2;    1;    1;   -2;    1;    1;   -2;    1;    1;   -2;    1;    1;   -2;    1;    1;   -2;    1;    1;   -2;    1;    1;   -2;    1;
       1;    1;    1;   -2;   -2;   -2;    1;    1;    1;    1;    1;    1;   -2;   -2;   -2;    1;    1;    1;    1;    1;    1;   -2;   -2;   -2;    1;    1;    1;
       1;    1;    1;    1;    1;    1;    1;    1;    1;   -2;   -2;   -2;   -2;   -2;   -2;   -2;   -2;   -2;    1;    1;    1;    1;    1;    1;    1;    1;    1;
     3/2;  3/2;  3/2;    0;    0;    0; -3/2; -3/2; -3/2;    0;    0;    0;    0;    0;    0;    0;    0;    0; -3/2; -3/2; -3/2;    0;    0;    0;  3/2;  3/2;  3/2;
     3/2;    0; -3/2;  3/2;    0; -3/2;  3/2;    0; -3/2;    0;    0;    0;    0;    0;    0;    0;    0;    0; -3/2;    0;  3/2; -3/2;    0;  3/2; -3/2;    0;  3/2;
     3/2;    0; -3/2;    0;    0;    0; -3/2;    0;  3/2;  3/2;    0; -3/2;    0;    0;    0; -3/2;    0;  3/2;  3/2;    0; -3/2;    0;    0;    0; -3/2;    0;  3/2
  ].

Record fit_3x3x3 : Type := mk_fit_3x3x3 {
  fit3_ok : bool;
  fit3_x : dfloat;
  fit3_y : dfloat;
  fit3_z : dfloat;
  fit3_val : dfloat
}.

(** The 3x3 system of [quadratic_fit_3x3x3] and its right-hand side. *)
Definition gradient_matrix (a : list dfloat) : list dfloat :=
  [ 2 * nth 4 a 0; nth 9 a 0; nth 8 a 0;
    nth 9 a 0; 2 * nth 5 a 0; nth 7 a 0;
    nth 8 a 0; nth 7 a 0; 2 * nth 6 a 0 ].

Definition gradient_rhs (a : list dfloat) : list dfloat :=
  [ - nth 1 a 0; - nth 2 a 0; - nth 3 a 0 ].

(** The 3x3 stencil of the paraboloid [v - ((x-cx)^2 + (y-cy)^2)], sampled in
    the order of the source's own test: x fastest. *)
Definition paraboloid_2d (cx cy v : dfloat) (x y : dfloat) : dfloat :=
  v - ((x - cx) * (x - cx) + (y - cy) * (y - cy)).

Definition paraboloid_stencil (cx cy v : dfloat) : list dfloat :=
  flat_map (fun y => map (fun x => paraboloid_2d cx cy v x y) [-1; 0; 1]) [-1; 0; 1].

(** [std::log]: defined on the positive reals. *)
Definition std_log (x : dfloat) : outcome dfloat :=
  if 0 <? x then Ok (ln x) else NonReal.

(** [log_transform( t, n, invert )]: the first [n] values of [t] are replaced
    by their logarithm, or by the logarithm of their opposite. *)
Fixpoint log_transform (t : list dfloat) (n : nat) (invert : bool)
  : outcome (list dfloat) :=
  match n, t with
  | S n', x :: r =>
      y <- std_log (if invert then - x else x) ;;
      r' <- log_transform r n' invert ;;
      Ok (y :: r')
  | _, _ => Ok t
  end.

(** ** Methods and flags *)

Inductive SubpixelExtremumMethod : Type :=
| LINEAR
| PARABOLIC_SEPARABLE
| GAUSSIAN_SEPARABLE
| PARABOLIC
| GAUSSIAN
| INTEGER.

(** The string constants [dip::S::...] are declared in the library's headers,
    outside the sources at hand; these are the values the library's
    documentation of [SubpixelLocation] gives. *)
Definition S_LINEAR : string := "linear".
Definition S_PARABOLIC : string := "parabolic".
Definition S_PARABOLIC_SEPARABLE : string := "parabolic separable".
Definition S_GAUSSIAN : string := "gaussian".
Definition S_GAUSSIAN_SEPARABLE : string := "gaussian separable".
Definition S_INTEGER : string := "integer".
Definition S_MINIMUM : string := "minimum".
Definition S_MAXIMUM : string := "maximum".

Definition ParseMethod (s_method : string) (nDims : nat) : outcome SubpixelExtremumMethod :=
  method <-
    (if String.eqb s_method S_LINEAR then Ok LINEAR
     else if String.eqb s_method S_PARABOLIC then Ok PARABOLIC
     else if String.eqb s_method S_PARABOLIC_SEPARABLE then Ok PARABOLIC_SEPARABLE
     else if String.eqb s_method S_GAUSSIAN then Ok GAUSSIAN
     else if String.eqb s_method S_GAUSSIAN_SEPARABLE then Ok GAUSSIAN_SEPARABLE
     else if String.eqb s_method S_INTEGER then Ok INTEGER
     else Throw (INVALID_FLAG s_method)) ;;
  if Nat.eqb nDims 1 then
    Ok (match method with
        | PARABOLIC => PARABOLIC_SEPARABLE
        | GAUSSIAN => GAUSSIAN_SEPARABLE
        | m => m
        end)
  else Ok method.

(** [BooleanFromString( input, trueString, falseString )] is defined outside
    the sources at hand: [true] on the first string, [false] on the second,
    an invalid-flag error on anything else. *)
Definition BooleanFromString (input trueString falseString : string) : outcome bool :=
  if String.eqb input trueString then Ok true
  else if String.eqb input falseString then Ok false
  else Throw (INVALID_FLAG input).

(** The method names [ParseMethod] knows, and those of the joint fits. *)
Definition recognized_method (s : string) : bool :=
  existsb (String.eqb s)
    [S_LINEAR; S_PARABOLIC; S_PARABOLIC_SEPARABLE; S_GAUSSIAN; S_GAUSSIAN_SEPARABLE; S_INTEGER].

Definition joint_method_name (s : string) : bool :=
  String.eqb s S_PARABOLIC || String.eqb s S_GAUSSIAN.

Definition is_joint (m : SubpixelExtremumMethod) : bool :=
  match m with PARABOLIC | GAUSSIAN => true | _ => false end.

Definition is_gaussian (m : SubpixelExtremumMethod) : bool :=
  match m with GAUSSIAN | GAUSSIAN_SEPARABLE => true | _ => false end.

(** ** Images *)

(** The sample types of the library ([dip::DataType], declared outside the
    sources at hand).  [IsReal] holds of the integer and floating-point
    types, not of the binary and complex ones. *)
Inductive DataType : Type :=
| DT_BIN
| DT_UINT8 | DT_SINT8 | DT_UINT16 | DT_SINT16
| DT_UINT32 | DT_SINT32 | DT_UINT64 | DT_SINT64
| DT_SFLOAT | DT_DFLOAT
| DT_SCOMPLEX | DT_DCOMPLEX.

Definition IsReal (dt : DataType) : bool :=
  match dt with
  | DT_BIN | DT_SCOMPLEX | DT_DCOMPLEX => false
  | _ => true
  end.

(** What the code reads of a [dip::Image]: whether it is forged, its sample
    type, sizes, strides, number of tensor elements, and its samples, given
    by their offset from the origin pointer and already cast to [dfloat]. *)
Record Image : Type := mk_Image {
  IsForged : bool;
  DataType_of : DataType;
  Sizes : UnsignedArray;
  Strides : IntegerArray;
  TensorElements : N;
  Data : Z -> dfloat
}.

Definition IsScalar (img : Image) : bool := N.eqb (TensorElements img) 1.
Definition Dimensionality (img : Image) : nat := List.length (Sizes img).
Definition Size (img : Image) (ii : nat) : N := nth ii (Sizes img) 0%N.
Definition Stride (img : Image) (ii : nat) : Z := nth ii (Strides img) 0%Z.

(** [in.Offset( coords )] (declared outside the sources at hand): the offset
    of the sample at [coords], an error when [coords] has the wrong length or
    lies outside the image. *)
Fixpoint offset_sum (img : Image) (coords : UnsignedArray) (ii : nat) : Z :=
  match coords with
  | [] => 0%Z
  | c :: r => (Z.of_N c * Stride img ii + offset_sum img r (S ii))%Z
  end.

Fixpoint coords_inside (img : Image) (coords : UnsignedArray) (ii : nat) : bool :=
  match coords with
  | [] => true
  | c :: r => N.ltb c (Size img ii) && coords_inside img r (S ii)
  end.

Definition Offset (img : Image) (coords : UnsignedArray) : outcome Z :=
  THROW_IF (negb (Nat.eqb (List.length coords) (Dimensionality img))) ARRAY_PARAMETER_WRONG_LENGTH (
  THROW_IF (negb (coords_inside img coords 0)) INDEX_OUT_OF_RANGE (
  Ok (offset_sum img coords 0))).

(** [in.Pointer( coords )], as an offset from the origin, and
    [in.At< dfloat >( coords )]. *)
Definition Pointer (img : Image) (coords : UnsignedArray) : outcome Z := Offset img coords.

Definition At (img : Image) (coords : UnsignedArray) : outcome dfloat :=
  p <- Pointer img coords ;; Ok (Data img p).

(** The image with every sample negated. *)
Definition negate_image (img : Image) : Image :=
  mk_Image (IsForged img) (DataType_of img) (Sizes img) (Strides img)
    (TensorElements img) (fun p => - Data img p).

(** ** Results *)

Record SubpixelLocationResult : Type := mk_result {
  coordinates : FloatArray;
  value : dfloat
}.

Definition set_coordinate (ii : nat) (c : dfloat) (out : SubpixelLocationResult)
  : SubpixelLocationResult :=
  mk_result (assign ii c (coordinates out)) (value out).

Definition set_value (v : dfloat) (out : SubpixelLocationResult) : SubpixelLocationResult :=
  mk_result (coordinates out) v.

Definition negate_value (out : SubpixelLocationResult) : SubpixelLocationResult :=
  mk_result (coordinates out) (- value out).

(** The value [v] is at least as extreme as [raw]: not below it for a
    maximum ([invert = false]), not above it for a minimum. *)
Definition at_least_as_extreme (invert : bool) (v raw : dfloat) : Prop :=
  if invert then v <= raw else raw <= v.

(** A candidate that is inside the image on every axis. *)
Definition in_bounds (img : Image) (position : UnsignedArray) : Prop :=
  forall ii, (ii < Dimensionality img)%nat -> (nth ii position 0 < Size img ii)%N.

(** Axis [ii] of the candidate is on the first or the last sample. *)
Definition on_border (img : Image) (position : UnsignedArray) (ii : nat) : Prop :=
  (nth ii position 0 = 0)%N \/ (nth ii position 0 + 1 = Size img ii)%N.

(** A candidate at least one sample away from every boundary. *)
Definition interior (img : Image) (position : UnsignedArray) : Prop :=
  forall ii, (ii < Dimensionality img)%nat ->
             (1 <= nth ii position 0)%N /\ (nth ii position 0 + 1 < Size img ii)%N.

(** An image [SubpixelLocation] accepts, with sizes that fit [dip::uint] and
    one stride per dimension. *)
Record valid_image (img : Image) : Prop := mk_valid_image {
  valid_forged : IsForged img = true;
  valid_scalar : IsScalar img = true;
  valid_real : IsReal (DataType_of img) = true;
  valid_dims : (1 <= Dimensionality img)%nat;
  valid_sizes : forall ii, (Size img ii < 2 ^ 64)%N
}.

(** ** [SubpixelLocationInternal] *)

Section Embedding.

(** [Solve( n, m, A, b, x )], the library's linear solver, is defined outside
    the sources at hand: it is a parameter of the embedding, taking the
    matrix and the right-hand side to the solution. *)
Variable Solve : nat -> nat -> list dfloat -> list dfloat -> list dfloat.

(** [ResampleAtUnchecked( image, coordinates, interpFunc )] with the cubic
    interpolator, cast to a [FloatArray]: defined outside the sources at
    hand, a parameter of the embedding. *)
Variable ResampleAtUnchecked : Image -> FloatArray -> FloatArray.

Definition quadratic_fit_3x3x3 (t : list dfloat) (x y z val : dfloat) : fit_3x3x3 :=
  let a := least_squares w_3x3x3 t 27 18 0 10 in
  let b := gradient_matrix a in
  let c := gradient_rhs a in
  let c := Solve 3 3 b c in
  let x := nth 0 c 0 in
  let y := nth 1 c 0 in
  let z := nth 2 c 0 in
  if (x <? -0.75) || (x >? 0.75) || (y <? -0.75) || (y >? 0.75)
     || (z <? -0.75) || (z >? 0.75)
  then mk_fit_3x3x3 false x y z val
  else
    mk_fit_3x3x3 true x y z
      (nth 0 a 0 + nth 1 a 0 * x + nth 2 a 0 * y + nth 3 a 0 * z
       + nth 4 a 0 * x * x + nth 5 a 0 * y * y + nth 6 a 0 * z * z
       + nth 7 a 0 * y * z + nth 8 a 0 * z * x + nth 9 a 0 * x * y).

(** The three samples [*( in - stride )], [*in], [*( in + stride )]. *)
Definition line_samples (input : Image) (in_ : Z) (ii : nat) : list dfloat :=
  [ Data input (in_ - Stride input ii)%Z;
    Data input in_;
    Data input (in_ + Stride input ii)%Z ].

(** One round of the loop of the [LINEAR] case. *)
Definition linear_axis (input : Image) (in_ : Z) (position : UnsignedArray)
  (invert : bool) (ii : nat) (out : SubpixelLocationResult)
  : outcome SubpixelLocationResult :=
  let t := line_samples input in_ ii in
  let t := if invert then map Ropp t else t in
  let b := std_min (nth 0 t 0) (nth 1 t 0) in
  let b := std_min b (nth 2 t 0) in
  let t := map (fun x => x - b) t in
  let m := nth 0 t 0 + nth 1 t 0 + nth 2 t 0 in
  let out := set_coordinate ii (to_dfloat (nth ii position 0%N)) out in
  if negb (m =? 0)
  then Ok (set_coordinate ii
             (nth ii (coordinates out) 0 + (nth 2 t 0 - nth 0 t 0) / m) out)
  else Ok out.

(** One round of the loop of the [default] case, the separable fits. *)
Definition separable_axis (input : Image) (in_ : Z) (position : UnsignedArray)
  (method : SubpixelExtremumMethod) (invert : bool) (ii : nat)
  (out : SubpixelLocationResult) : outcome SubpixelLocationResult :=
  let t := line_samples input in_ ii in
  let gaussian := match method with GAUSSIAN_SEPARABLE => true | _ => false end in
  let inverted := if gaussian then nth 1 t 0 <? 0 else false in
  t <- (if gaussian then log_transform t 3 inverted else Ok t) ;;
  let out := set_coordinate ii (to_dfloat (nth ii position 0%N)) out in
  let m := nth 0 t 0 - 2 * nth 1 t 0 + nth 2 t 0 in
  if negb (m =? 0)
  then
    let out := set_coordinate ii
                 (nth ii (coordinates out) 0 + (nth 0 t 0 - nth 2 t 0) / (2 * m)) out in
    let b := nth 1 t 0 - (nth 0 t 0 - nth 2 t 0) * (nth 0 t 0 - nth 2 t 0) / (8 * m) in
    let b := if gaussian then (if inverted then - exp b else exp b) else b in
    Ok (set_value (if invert then std_min (value out) b else std_max (value out) b) out)
  else Ok out.

(** One round of the loop of the [INTEGER] case. *)
Definition integer_axis (position : UnsignedArray) (ii : nat)
  (out : SubpixelLocationResult) : outcome SubpixelLocationResult :=
  Ok (set_coordinate ii (to_dfloat (nth ii position 0%N)) out).

(** The neighbourhoods of the joint fits, first axis fastest. *)
Definition stencil_2d (input : Image) (in_ : Z) : list dfloat :=
  flat_map (fun jj =>
    map (fun ii => Data input (in_ + ii * Stride input 0 + jj * Stride input 1)%Z)
        [-1; 0; 1]%Z) [-1; 0; 1]%Z.

Definition stencil_3d (input : Image) (in_ : Z) : list dfloat :=
  flat_map (fun kk =>
    flat_map (fun jj =>
      map (fun ii => Data input (in_ + ii * Stride input 0 + jj * Stride input 1
                                 + kk * Stride input 2)%Z)
          [-1; 0; 1]%Z) [-1; 0; 1]%Z) [-1; 0; 1]%Z.

(** [val = std::exp( val ); if( inverted ) val = -val], for [GAUSSIAN]. *)
Definition undo_log (gaussian inverted : bool) (val : dfloat) : dfloat :=
  if gaussian then (if inverted then - exp val else exp val) else val.

(** The [PARABOLIC]/[GAUSSIAN] case up to the final clamp: the updated [out]
    and the local [val], which starts at zero. *)
Definition joint_fit (input : Image) (in_ : Z) (position : UnsignedArray)
  (method : SubpixelExtremumMethod) (out : SubpixelLocationResult)
  : outcome (SubpixelLocationResult * dfloat) :=
  let val := 0 in
  let gaussian := match method with GAUSSIAN => true | _ => false end in
  match Dimensionality input with
  | 2%nat =>
      let t := stencil_2d input in_ in
      let inverted := if gaussian then nth 4 t 0 <? 0 else false in
      t <- (if gaussian then log_transform t 9 inverted else Ok t) ;;
      let out := set_coordinate 0 (to_dfloat (nth 0 position 0%N)) out in
      let out := set_coordinate 1 (to_dfloat (nth 1 position 0%N)) out in
      let fit := quadratic_fit_3x3 t 0 0 val in
      if fit2_ok fit
      then
        let out := set_coordinate 0 (nth 0 (coordinates out) 0 + fit2_x fit) out in
        let out := set_coordinate 1 (nth 1 (coordinates out) 0 + fit2_y fit) out in
        Ok (out, undo_log gaussian inverted (fit2_val fit))
      else Ok (out, fit2_val fit)
  | 3%nat =>
      let t := stencil_3d input in_ in
      let inverted := if gaussian then nth 13 t 0 <? 0 else false in
      t <- (if gaussian then log_transform t 27 inverted else Ok t) ;;
      let out := set_coordinate 0 (to_dfloat (nth 0 position 0%N)) out in
      let out := set_coordinate 1 (to_dfloat (nth 1 position 0%N)) out in
      let out := set_coordinate 2 (to_dfloat (nth 2 position 0%N)) out in
      let fit := quadratic_fit_3x3x3 t 0 0 0 val in
      if fit3_ok fit
      then
        let out := set_coordinate 0 (nth 0 (coordinates out) 0 + fit3_x fit) out in
        let out := set_coordinate 1 (nth 1 (coordinates out) 0 + fit3_y fit) out in
        let out := set_coordinate 2 (nth 2 (coordinates out) 0 + fit3_z fit) out in
        Ok (out, undo_log gaussian inverted (fit3_val fit))
      else Ok (out, fit3_val fit)
  | _ => Throw ILLEGAL_DIMENSIONALITY
  end.

Definition SubpixelLocationInternal (input : Image) (position : UnsignedArray)
  (method : SubpixelExtremumMethod) (invert : bool) : outcome SubpixelLocationResult :=
  in_ <- Pointer input position ;;
  let nd := Dimensionality input in
  let out := mk_result (repeat 0 nd) (Data input in_) in
  match method with
  | LINEAR => for_loop (linear_axis input in_ position invert) 0 nd out
  | PARABOLIC | GAUSSIAN =>
      r <- joint_fit input in_ position method out ;;
      let '(out, val) := r in
      Ok (set_value (if invert then std_min (value out) val
                     else std_max (value out) val) out)
  | INTEGER => for_loop (integer_axis position) 0 nd out
  | _ => for_loop (separable_axis input in_ position method invert) 0 nd out
  end.

(** ** [SubpixelLocation] *)

(** The loop over the axes that returns early on a border candidate:
    [None] when the loop runs to its end, otherwise what the function
    returns or throws from inside the loop. *)
Fixpoint border_loop (in_ : Image) (position : UnsignedArray) (ii count : nat)
  : option (outcome SubpixelLocationResult) :=
  match count with
  | O => None
  | S c =>
      let p := nth ii position 0%N in
      if N.ltb p 1 || N.leb (uint_sub (Size in_ ii) 1) p
      then
        Some (THROW_IF (N.leb (Size in_ ii) p)
                (OTHER_ERROR "Initial coordinates out of image bounds")
                (v <- At in_ position ;;
                 Ok (mk_result (map to_dfloat position) v)))
      else border_loop in_ position (S ii) c
  end.

Definition SubpixelLocation (in_ : Image) (position : UnsignedArray)
  (polarity s_method : string) : outcome SubpixelLocationResult :=
  THROW_IF (negb (IsForged in_)) IMAGE_NOT_FORGED (
  THROW_IF (negb (IsScalar in_)) IMAGE_NOT_SCALAR (
  THROW_IF (negb (IsReal (DataType_of in_))) DATA_TYPE_NOT_SUPPORTED (
  let nDims := Dimensionality in_ in
  THROW_IF (Nat.ltb nDims 1) DIMENSIONALITY_NOT_SUPPORTED (
  THROW_IF (negb (Nat.eqb (List.length position) nDims)) ARRAY_PARAMETER_WRONG_LENGTH (
  match border_loop in_ position 0 nDims with
  | Some r => r
  | None =>
      invert <- BooleanFromString polarity S_MINIMUM S_MAXIMUM ;;
      method <- ParseMethod s_method nDims ;;
      SubpixelLocationInternal in_ position method invert
  end))))).

(** ** [MeanShift] *)

(** [pt += meanShift] and [meanShift.norm_square()]. *)
Fixpoint array_add (a b : FloatArray) : FloatArray :=
  match a, b with
  | x :: a', y :: b' => (x + y) :: array_add a' b'
  | _, _ => a
  end.

Definition norm_square (a : FloatArray) : dfloat :=
  fold_left (fun acc x => acc + x * x) a 0.

(** The [do ... while( distance > epsilon )] loop, [epsilon] being squared
    already.  The loop of the source has no bound: [fuel] bounds the number of
    rounds here, and [None] says that the bound was reached.  The second
    component of the result counts the calls of [ResampleAtUnchecked]; the
    source returns the first only. *)
Fixpoint MeanShift_loop (fuel : nat) (meanShiftVectorResult : Image)
  (epsilon : dfloat) (pt : FloatArray) (steps : nat) : option (FloatArray * nat) :=
  match fuel with
  | O => None
  | S f =>
      let meanShift := ResampleAtUnchecked meanShiftVectorResult pt in
      let pt := array_add pt meanShift in
      let distance := norm_square meanShift in
      if distance >? epsilon
      then MeanShift_loop f meanShiftVectorResult epsilon pt (S steps)
      else Some (pt, S steps)
  end.

Definition MeanShift (fuel : nat) (meanShiftVectorResult : Image)
  (start : FloatArray) (epsilon : dfloat) : outcome (option FloatArray) :=
  THROW_IF (negb (IsForged meanShiftVectorResult)) IMAGE_NOT_FORGED (
  let nDims := Dimensionality meanShiftVectorResult in
  THROW_IF (negb (N.eqb (TensorElements meanShiftVectorResult) (N.of_nat nDims)))
    NTENSORELEM_DONT_MATCH (
  THROW_IF (negb (IsReal (DataType_of meanShiftVectorResult))) DATA_TYPE_NOT_SUPPORTED (
  THROW_IF (negb (Nat.eqb (List.length start) nDims)) ARRAY_PARAMETER_WRONG_LENGTH (
  THROW_IF (epsilon <=? 0) PARAMETER_OUT_OF_RANGE (
  let epsilon := epsilon * epsilon in
  Ok (option_map fst (MeanShift_loop fuel meanShiftVectorResult epsilon start 0))))))).

End Embedding.

(** ** Negation *)

(** A fit with its value negated. *)
Definition negate_fit2 (f : fit_3x3) : fit_3x3 :=
  mk_fit_3x3 (fit2_ok f) (fit2_x f) (fit2_y f) (- fit2_val f).

Definition negate_fit3 (f : fit_3x3x3) : fit_3x3x3 :=
  mk_fit_3x3x3 (fit3_ok f) (fit3_x f) (fit3_y f) (fit3_z f) (- fit3_val f).

(** The solution of the negated system is the solution of the system: a
    property of linear solvers the negation lemmas ask of [Solve]. *)
Definition Solve_even (Solve : nat -> nat -> list dfloat -> list dfloat -> list dfloat) : Prop :=
  forall A b, Solve 3%nat 3%nat (map Ropp A) (map Ropp b) = Solve 3%nat 3%nat A b.

(** Every coordinate of the result is within [bound] of the candidate's. *)
Definition offset_within (bound : dfloat) (position : UnsignedArray)
  (res : SubpixelLocationResult) (nd : nat) : Prop :=
  forall ii, (ii < nd)%nat ->
             Rabs (nth ii (coordinates res) 0 - to_dfloat (nth ii position 0%N)) <= bound.

(** The loop invariant of the [LINEAR] case: the array keeps its length and
    the coordinates written so far are within 1 of the candidate's. *)
Definition linear_invariant (position : UnsignedArray) (nd : nat) (k : nat)
  (out : SubpixelLocationResult) : Prop :=
  List.length (coordinates out) = nd /\ offset_within 1 position out k.

(** The conditions under which [MeanShift] throws. *)
Definition MeanShift_rejects (meanShiftVectorResult : Image) (start : FloatArray)
  (epsilon : dfloat) : Prop :=
  IsForged meanShiftVectorResult = false
  \/ TensorElements meanShiftVectorResult <> N.of_nat (Dimensionality meanShiftVectorResult)
  \/ IsReal (DataType_of meanShiftVectorResult) = false
  \/ List.length start <> Dimensionality meanShiftVectorResult
  \/ epsilon <= 0.

(** ** Concrete inputs *)

(** A solver for the 3x3 systems by Cramer's rule, the zero vector on a
    singular matrix: one function the parameter [Solve] can stand for. *)
Definition det3 (b : list dfloat) : dfloat :=
  nth 0 b 0 * (nth 4 b 0 * nth 8 b 0 - nth 5 b 0 * nth 7 b 0)
  - nth 1 b 0 * (nth 3 b 0 * nth 8 b 0 - nth 5 b 0 * nth 6 b 0)
  + nth 2 b 0 * (nth 3 b 0 * nth 7 b 0 - nth 4 b 0 * nth 6 b 0).

Definition replace_column (b c : list dfloat) (k : nat) : list dfloat :=
  map (fun i => if Nat.eqb (i mod 3) k then nth (i / 3) c 0 else nth i b 0) (seq 0 9).

Definition Solve_cramer (n m : nat) (b c : list dfloat) : list dfloat :=
  if det3 b =? 0 then [0; 0; 0]
  else map (fun k => det3 (replace_column b c k) / det3 b) (seq 0 3).

(** An interpolator over a field that is zero everywhere. *)
Definition zero_field (img : Image) (pt : FloatArray) : FloatArray :=
  repeat 0 (Dimensionality img).

(** A forged scalar [dfloat] image with normal strides whose samples are
    given in storage order. *)
Definition normal_strides_from (sizes : UnsignedArray) : IntegerArray :=
  (fix go (s : UnsignedArray) (acc : Z) : IntegerArray :=
     match s with
     | [] => []
     | n :: r => acc :: go r (acc * Z.of_N n)%Z
     end) sizes 1%Z.

Definition image_of (sizes : UnsignedArray) (samples : list dfloat) : Image :=
  mk_Image true DT_DFLOAT sizes (normal_strides_from sizes) 1
    (fun p => nth (Z.to_nat p) samples 0).

(** A 3x3 image of constant value [-1], a 5-sample line and a 3x3 image
    holding the paraboloid of the source's test. *)
Definition flat_3x3 : Image := image_of [3; 3]%N (repeat (-1) 9).
Definition line_5 : Image := image_of [5]%N [0; 1; 4; 2; 1].
Definition ramp_5 : Image := image_of [5]%N [0; 0; 1; 1.9; 3].
Definition paraboloid_3x3 : Image :=
  image_of [3; 3]%N (paraboloid_stencil 0.3715 (-0.0396) 4.0125).
Definition flat_3x3x3x3 : Image := image_of [3; 3; 3; 3]%N (repeat 1 81).
Definition gaussian_ramp_3 : Image := image_of [3]%N [1; exp 1; exp 1.9].

(** A vector field over a 4x4 grid: two tensor elements per sample. *)
Definition field_4x4 : Image :=
  mk_Image true DT_SFLOAT [4; 4]%N [2; 8]%Z 2 (fun _ => 0).


(** ** Quadratic models and their squared error *)

(** The points of the 3x3 and 3x3x3 neighbourhoods in the order of the
    sample buffers, first axis fastest. *)
Definition stencil_points_2d : list (dfloat * dfloat) :=
  flat_map (fun y => map (fun x => (x, y)) [-1; 0; 1]) [-1; 0; 1].

Definition stencil_points_3d : list (dfloat * dfloat * dfloat) :=
  flat_map (fun z =>
    flat_map (fun y => map (fun x => (x, y, z)) [-1; 0; 1]) [-1; 0; 1]) [-1; 0; 1].

(** [f = a0 + a1*x + a2*y + a3*x*x + a4*y*y + a5*x*y], the model of
    [quadratic_fit_3x3]. *)
Definition quadratic_2d (a : list dfloat) (x y : dfloat) : dfloat :=
  nth 0 a 0 + nth 1 a 0 * x + nth 2 a 0 * y
  + nth 3 a 0 * x * x + nth 4 a 0 * y * y + nth 5 a 0 * x * y.

(** [f = a0 + a1*x + a2*y + a3*z + a4*x*x + a5*y*y + a6*z*z + a7*y*z
    + a8*z*x + a9*x*y], the model of [quadratic_fit_3x3x3]. *)
Definition quadratic_3d (a : list dfloat) (x y z : dfloat) : dfloat :=
  nth 0 a 0 + nth 1 a 0 * x + nth 2 a 0 * y + nth 3 a 0 * z
  + nth 4 a 0 * x * x + nth 5 a 0 * y * y + nth 6 a 0 * z * z
  + nth 7 a 0 * y * z + nth 8 a 0 * z * x + nth 9 a 0 * x * y.

(** The sum over the neighbourhood of the squared differences between a
    model and the samples. *)
Definition squared_error_2d (a t : list dfloat) : dfloat :=
  fold_right Rplus 0
    (map (fun pt => let '((x, y), s) := pt in
                    (quadratic_2d a x y - s) * (quadratic_2d a x y - s))
         (combine stencil_points_2d t)).

Definition squared_error_3d (a t : list dfloat) : dfloat :=
  fold_right Rplus 0
    (map (fun pt => let '((x, y, z), s) := pt in
                    (quadratic_3d a x y z - s) * (quadratic_3d a x y z - s))
         (combine stencil_points_3d t)).

(** The samples of a quadratic model on the two neighbourhoods. *)
Definition quadratic_stencil_2d (c : list dfloat) : list dfloat :=
  map (fun pt => let '(x, y) := pt in quadratic_2d c x y) stencil_points_2d.

Definition quadratic_stencil_3d (c : list dfloat) : list dfloat :=
  map (fun pt => let '(x, y, z) := pt in quadratic_3d c x y z) stencil_points_3d.

(** The ten monomials of the 3D model, and the sum over the neighbourhood of
    the products of monomial [k] with the residuals of a model. *)
Definition basis_3d (x y z : dfloat) : list dfloat :=
  [1; x; y; z; x * x; y * y; z * z; y * z; z * x; x * y].

Definition normal_sum_3d (k : nat) (a t : list dfloat) : dfloat :=
  fold_right Rplus 0
    (map (fun pt => let '((x, y, z), s) := pt in
                    nth k (basis_3d x y z) 0 * (quadratic_3d a x y z - s))
         (combine stencil_points_3d t)).

(** The 3x3x3 samples of the paraboloid of the source's test,
    [v - ((x-cx)^2 + (y-cy)^2 + (z-cz)^2)]. *)
Definition paraboloid_3d (cx cy cz v : dfloat) (x y z : dfloat) : dfloat :=
  v - ((x - cx) * (x - cx) + (y - cy) * (y - cy) + (z - cz) * (z - cz)).

Definition paraboloid_stencil_3d (cx cy cz v : dfloat) : list dfloat :=
  map (fun pt => let '(x, y, z) := pt in paraboloid_3d cx cy cz v x y z) stencil_points_3d.

(** The Gaussian of the source's test, [v * g1( x - cx ) * g1( y - cy )] with
    [g1( x ) = exp( -0.5 * x * x )]. *)
Definition g1 (x : dfloat) : dfloat := exp (-0.5 * x * x).

Definition gaussian_2d (cx cy v : dfloat) (x y : dfloat) : dfloat :=
  v * g1 (x - cx) * g1 (y - cy).

Definition gaussian_stencil (cx cy v : dfloat) : list dfloat :=
  map (fun pt => let '(x, y) := pt in gaussian_2d cx cy v x y) stencil_points_2d.

(** A solver of the symmetric 3x3 systems of the fit: on a symmetric matrix
    of non-zero determinant the result solves the system. *)
Definition mat_vec3 (A x : list dfloat) : list dfloat :=
  map (fun i => nth (3 * i) A 0 * nth 0 x 0 + nth (3 * i + 1) A 0 * nth 1 x 0
                + nth (3 * i + 2) A 0 * nth 2 x 0) (seq 0 3).

Definition symmetric3 (A : list dfloat) : Prop :=
  nth 1 A 0 = nth 3 A 0 /\ nth 2 A 0 = nth 6 A 0 /\ nth 5 A 0 = nth 7 A 0.

Definition Solve_solves (Solve : nat -> nat -> list dfloat -> list dfloat -> list dfloat)
  : Prop :=
  forall A b, List.length b = 3%nat -> symmetric3 A -> det3 A <> 0 ->
              mat_vec3 A (Solve 3%nat 3%nat A b) = b.


(** ** The trajectory of [MeanShift] *)

(** The point reached from [pt] after [k] rounds of the loop of [MeanShift],
    whatever the displacements are. *)
Fixpoint MeanShift_path (ResampleAtUnchecked : Image -> FloatArray -> FloatArray)
  (meanShiftVectorResult : Image) (k : nat) (pt : FloatArray) : FloatArray :=
  match k with
  | O => pt
  | S k' =>
      MeanShift_path ResampleAtUnchecked meanShiftVectorResult k'
        (array_add pt (ResampleAtUnchecked meanShiftVectorResult pt))
  end.

(** ** [Find] *)

(** A loop over a list whose body can throw. *)
Fixpoint mapM {A B : Type} (f : A -> outcome B) (l : list A) : outcome (list B) :=
  match l with
  | [] => Ok []
  | x :: r => y <- f x ;; ys <- mapM f r ;; Ok (y :: ys)
  end.

(** The coordinates an [ImageIterator] visits, in its order: the first
    dimension runs fastest.  (The iterators are defined outside the sources
    at hand.) *)
Fixpoint all_coordinates (sizes : UnsignedArray) : list UnsignedArray :=
  match sizes with
  | [] => [[]]
  | n :: rest =>
      flat_map (fun tail => map (fun i => N.of_nat i :: tail) (seq 0 (N.to_nat n)))
               (all_coordinates rest)
  end.

(** [*it != T( 0 )], and [it.Sample< 1 >()] for a binary mask. *)
Definition sample_nonzero (img : Image) (c : UnsignedArray) : bool :=
  negb (Data img (offset_sum img c 0) =? 0).

(** [mask.CheckIsMask( sizes, DONT_ALLOW )] (defined outside the sources at
    hand): the mask is scalar, binary and of the sizes given. *)
Definition is_binary (dt : DataType) : bool :=
  match dt with DT_BIN => true | _ => false end.

Definition CheckIsMask (mask : Image) (sizes : UnsignedArray) : outcome unit :=
  THROW_IF (negb (IsScalar mask)) (OTHER_ERROR "Mask image not scalar") (
  THROW_IF (negb (is_binary (DataType_of mask))) (OTHER_ERROR "Mask image not binary") (
  THROW_IF (negb (if list_eq_dec N.eq_dec (Sizes mask) sizes then true else false))
    (OTHER_ERROR "Mask image sizes do not match") (
  Ok tt))).

(** The two loops of the template [Find]: [out.push_back( it.Coordinates() )]
    on the pixels that pass the test. *)
Definition Find_loop (test : UnsignedArray -> bool) (sizes : UnsignedArray)
  (out : list UnsignedArray) : list UnsignedArray :=
  fold_left (fun out c => if test c then out ++ [c] else out) (all_coordinates sizes) out.

Definition Find (in_ mask : Image) : outcome (list UnsignedArray) :=
  THROW_IF (negb (IsForged in_)) IMAGE_NOT_FORGED (
  THROW_IF (negb (IsScalar in_)) IMAGE_NOT_SCALAR (
  if negb (IsForged mask)
  then Ok (Find_loop (fun c => sample_nonzero in_ c) (Sizes in_) [])
  else
    _ <- CheckIsMask mask (Sizes in_) ;;
    Ok (Find_loop (fun c => sample_nonzero mask c && sample_nonzero in_ c)
          (Sizes in_) []))).

(** ** [SubpixelExtrema], [SubpixelMaxima], [SubpixelMinima] *)

(** What the measurement tool reports of one local extremum. *)
Record Extremum : Type := mk_Extremum {
  Center : FloatArray;
  Size_of : dfloat;
  Mean : dfloat
}.

(** [static_cast< dip::uint >] of a signed integer. *)
Definition to_uint (z : Z) : N := Z.to_N (z mod 2 ^ 64).

(** The extrema that bypass the fit: all of them with the method
    [INTEGER], and the plateaus of more than one pixel. *)
Definition bypasses_fit (method : SubpixelExtremumMethod) (e : Extremum) : bool :=
  (match method with INTEGER => true | _ => false end) || (Size_of e >? 1).

Section Extrema.

Variable Solve : nat -> nat -> list dfloat -> list dfloat -> list dfloat.

(** The detection of the extrema, from [Minima]/[Maxima] to
    [msrTool.Measure], is made of calls into the library: a parameter that
    gives the measured extrema, or the error one of the calls throws. *)
Variable MeasureExtrema : Image -> Image -> bool -> outcome (list Extremum).

(** [round_cast] is defined outside the sources at hand. *)
Variable round_cast : dfloat -> Z.

(** One round of the loop over the extrema. *)
Definition locate_extremum (in_ : Image) (method : SubpixelExtremumMethod)
  (invert : bool) (e : Extremum) : outcome SubpixelLocationResult :=
  let coords := Center e in
  if bypasses_fit method e
  then Ok (mk_result coords (Mean e))
  else
    let position := map (fun c => to_uint (round_cast c)) coords in
    SubpixelLocationInternal Solve in_ position method invert.

Definition SubpixelExtrema (in_ mask : Image) (s_method : string) (invert : bool)
  : outcome (list SubpixelLocationResult) :=
  THROW_IF (negb (IsForged in_)) IMAGE_NOT_FORGED (
  THROW_IF (negb (IsScalar in_)) IMAGE_NOT_SCALAR (
  THROW_IF (negb (IsReal (DataType_of in_))) DATA_TYPE_NOT_SUPPORTED (
  let nDims := Dimensionality in_ in
  THROW_IF (Nat.ltb nDims 1) DIMENSIONALITY_NOT_SUPPORTED (
  method <- ParseMethod s_method nDims ;;
  measurement <- MeasureExtrema in_ mask invert ;;
  match measurement with
  | [] => Ok []
  | _ => mapM (locate_extremum in_ method invert) measurement
  end)))).

Definition SubpixelMaxima (in_ mask : Image) (method : string) :=
  SubpixelExtrema in_ mask method false.

Definition SubpixelMinima (in_ mask : Image) (method : string) :=
  SubpixelExtrema in_ mask method true.

(** ** The DIPimage interface, [subpixlocation] of [dip_geometry.cpp] *)

(** The translation of the method names of the interface. *)
Definition dipimage_method (method : string) : string :=
  if String.eqb method "parabolic nonseparable" || String.eqb method "parabolic_nonseparable"
  then S_PARABOLIC
  else if String.eqb method "gaussian nonseparable"
          || String.eqb method "gaussian_nonseparable"
  then S_GAUSSIAN
  else if String.eqb method "parabolic" then S_PARABOLIC_SEPARABLE
  else if String.eqb method "gaussian" then S_GAUSSIAN_SEPARABLE
  else method.

(** The loop that clears [use] on a coordinate that is on the border or
    outside the image. *)
Fixpoint subpixlocation_use (in_ : Image) (coords : UnsignedArray) (jj count : nat)
  (use : bool) : bool :=
  match count with
  | O => use
  | S c =>
      let x := nth jj coords 0%N in
      subpixlocation_use in_ coords (S jj) c
        (if N.eqb x 0 || N.leb (uint_sub (Size in_ jj) 1) x then false else use)
  end.

(** One round of the loop over the coordinates: what is written to the two
    output arrays. *)
Definition subpixlocation_one (in_ : Image) (polarity method : string)
  (coords : UnsignedArray) : outcome SubpixelLocationResult :=
  if subpixlocation_use in_ coords 0 (Dimensionality in_) true
  then SubpixelLocation Solve in_ coords polarity method
  else Ok (mk_result (map to_dfloat coords) 0).

(** [subpixlocation] from its arguments on: the image, the coordinates, and
    the optional method and polarity. *)
Definition subpixlocation (in_ : Image) (coords : list UnsignedArray)
  (method_arg polarity_arg : option string) : outcome (list SubpixelLocationResult) :=
  let method := match method_arg with
                | Some m => dipimage_method m
                | None => S_PARABOLIC_SEPARABLE
                end in
  let polarity := match polarity_arg with Some p => p | None => S_MAXIMUM end in
  mapM (subpixlocation_one in_ polarity method) coords.

End Extrema.

(** An extremum with its mean negated, as measured on the negated image. *)
Definition negate_mean (e : Extremum) : Extremum :=
  mk_Extremum (Center e) (Size_of e) (- Mean e).

(** ** Concrete inputs for the functions above *)

(** A 3x3 image holding the Gaussian of the source's test, and an image that
    is not forged. *)
Definition gaussian_3x3 : Image :=
  image_of [3; 3]%N (gaussian_stencil 0.3715 (-0.0396) 4.0125).

Definition raw_image : Image := mk_Image false DT_BIN [] [] 1 (fun _ => 0).

(** A measurement of one plateau of three pixels, and one of a single pixel;
    a rounding to the nearest integer. *)
Definition one_plateau (in_ mask : Image) (invert : bool) : outcome (list Extremum) :=
  Ok [mk_Extremum [1; 1.5] 3 2].

Definition one_pixel (in_ mask : Image) (invert : bool) : outcome (list Extremum) :=
  Ok [mk_Extremum [1; 1; 1; 1] 1 1].

Definition round_nearest (x : dfloat) : Z := (up (x - / 2))%Z.

(** A measurement of one single-pixel extremum at the centre of a 3x3 image,
    whose mean is the sample there. *)
Definition centre_pixel (in_ mask : Image) (invert : bool) : outcome (list Extremum) :=
  Ok [mk_Extremum [1; 1] 1 (Data in_ 4)].

(** ** Reflection of the comparisons *)

Lemma Rltb_true (a b : R) : (a <? b) = true <-> a < b.
Proof. unfold Rltb; destruct (Rlt_dec a b); split; intros; try easy. Qed.

Lemma Rltb_false (a b : R) : (a <? b) = false <-> b <= a.
Proof. unfold Rltb; destruct (Rlt_dec a b); split; intros; try easy; lra. Qed.

Lemma Rleb_true (a b : R) : (a <=? b) = true <-> a <= b.
Proof. unfold Rleb; destruct (Rle_dec a b); split; intros; try easy. Qed.

Lemma Rleb_false (a b : R) : (a <=? b) = false <-> b < a.
Proof. unfold Rleb; destruct (Rle_dec a b); split; intros; try easy; lra. Qed.

Lemma Reqb_true (a b : R) : (a =? b) = true <-> a = b.
Proof. unfold Reqb; destruct (Req_dec_T a b); split; intros; try easy. Qed.

Lemma Reqb_false (a b : R) : (a =? b) = false <-> a <> b.
Proof. unfold Reqb; destruct (Req_dec_T a b); split; intros; try easy. Qed.

(** Decide every comparison of the goal by linear arithmetic. *)
Ltac Rdecide :=
  repeat match goal with
    | |- context [Rltb ?a ?b] =>
        first [ replace (Rltb a b) with true by (symmetry; apply Rltb_true; lra)
              | replace (Rltb a b) with false by (symmetry; apply Rltb_false; lra) ]
    | |- context [Rleb ?a ?b] =>
        first [ replace (Rleb a b) with true by (symmetry; apply Rleb_true; lra)
              | replace (Rleb a b) with false by (symmetry; apply Rleb_false; lra) ]
    | |- context [Reqb ?a ?b] =>
        first [ replace (Reqb a b) with true by (symmetry; apply Reqb_true; lra)
              | replace (Reqb a b) with false by (symmetry; apply Reqb_false; lra) ]
    end.

(** ** The coefficients of the 2D fit *)

(** The six coefficients, written out for a stencil of nine samples. *)
Lemma least_squares_3x3 (t0 t1 t2 t3 t4 t5 t6 t7 t8 : dfloat) :
  least_squares w_3x3 [t0; t1; t2; t3; t4; t5; t6; t7; t8] 9 6 0 6 =
  [ (-2/3*t0 + 4/3*t1 - 2/3*t2 + 4/3*t3 + 10/3*t4 + 4/3*t5 - 2/3*t6 + 4/3*t7 - 2/3*t8) / 6;
    (t2 - t0 + t5 - t3 + t8 - t6) / 6;
    (t6 + t7 + t8 - t0 - t1 - t2) / 6;
    (t0 - 2*t1 + t2 + t3 - 2*t4 + t5 + t6 - 2*t7 + t8) / 6;
    (t0 + t1 + t2 - 2*t3 - 2*t4 - 2*t5 + t6 + t7 + t8) / 6;
    (3/2*t0 - 3/2*t2 - 3/2*t6 + 3/2*t8) / 6 ].
Proof.
  cbv [least_squares accumulate w_3x3 nth].
  repeat (f_equal; try lra).
Qed.

Lemma quadratic_fit_3x3_coefficients (t : list dfloat) (a0 a1 a2 a3 a4 a5 x y val : dfloat) :
  least_squares w_3x3 t 9 6 0 6 = [a0; a1; a2; a3; a4; a5] ->
  quadratic_fit_3x3 t x y val = solve_2d a0 a1 a2 a3 a4 a5 x y val.
Proof. intros E; unfold quadratic_fit_3x3; rewrite E; reflexivity. Qed.

Lemma paraboloid_coefficients (cx cy v : dfloat) :
  least_squares w_3x3 (paraboloid_stencil cx cy v) 9 6 0 6 =
  [v - cx * cx - cy * cy; 2 * cx; 2 * cy; -1; -1; 0].
Proof.
  unfold paraboloid_stencil; cbv [flat_map map app].
  rewrite least_squares_3x3; unfold paraboloid_2d.
  repeat (f_equal; try field).
Qed.

(** C4: on the exact 3x3 samples of the paraboloid
    [v - ((x-cx)^2 + (y-cy)^2)] with [cx] and [cy] in [-0.75, 0.75],
    [quadratic_fit_3x3] succeeds and returns [x = cx], [y = cy], [val = v],
    whatever its out-parameters held before. *)
Theorem quadratic_fit_3x3_paraboloid (cx cy v x0 y0 val0 : dfloat) :
  -0.75 <= cx <= 0.75 ->
  -0.75 <= cy <= 0.75 ->
  quadratic_fit_3x3 (paraboloid_stencil cx cy v) x0 y0 val0 = mk_fit_3x3 true cx cy v.
Proof.
  intros Hx Hy.
  rewrite (quadratic_fit_3x3_coefficients _ _ _ _ _ _ _ _ _ _ (paraboloid_coefficients cx cy v)).
  unfold solve_2d.
  replace (0 * 0 - 4 * -1 * -1) with (-4) by lra.
  replace ((2 * -1 * (2 * cx) - 0 * (2 * cy)) / -4) with cx by lra.
  replace ((2 * -1 * (2 * cy) - 0 * (2 * cx)) / -4) with cy by lra.
  Rdecide. cbn [orb].
  f_equal; ring.
Qed.

(** The source's own test: [cx = 0.3715], [cy = -0.0396], [v = 4.0125]. *)
Lemma quadratic_fit_3x3_paraboloid_witness :
  quadratic_fit_3x3 (paraboloid_stencil 0.3715 (-0.0396) 4.0125) 0 0 0
  = mk_fit_3x3 true 0.3715 (-0.0396) 4.0125.
Proof. apply quadratic_fit_3x3_paraboloid; lra. Defined.

(** ** Outcomes and loops *)

Lemma bind_Ok_inv {A B : Type} (m : outcome A) (k : A -> outcome B) (b : B) :
  bind m k = Ok b -> exists a, m = Ok a /\ k a = Ok b.
Proof. destruct m; simpl; intros H; try discriminate; eauto. Qed.

Lemma omap_omap {A B C : Type} (f : A -> B) (g : B -> C) (m : outcome A) :
  omap g (omap f m) = omap (fun a => g (f a)) m.
Proof. destruct m; reflexivity. Qed.

(** An invariant indexed by the loop counter holds when the loop returns. *)
Lemma for_loop_invariant {S : Type} (body : nat -> S -> outcome S) (Inv : nat -> S -> Prop) :
  forall count lo s s',
    Inv lo s ->
    (forall ii t t', (lo <= ii < lo + count)%nat -> Inv ii t -> body ii t = Ok t' ->
                     Inv (Datatypes.S ii) t') ->
    for_loop body lo count s = Ok s' ->
    Inv (lo + count)%nat s'.
Proof.
  induction count as [|c IH]; intros lo s s' H0 Hstep Hrun; simpl in Hrun.
  - injection Hrun as <-. now rewrite Nat.add_0_r.
  - apply bind_Ok_inv in Hrun as (t & Hb & Hrest).
    replace (lo + Datatypes.S c)%nat with (Datatypes.S lo + c)%nat by lia.
    apply (IH (Datatypes.S lo) t s'); auto.
    + apply (Hstep lo s t); auto; lia.
    + intros ii u u' Hii; apply Hstep; lia.
Qed.

(** A loop whose body always returns, returns. *)
Lemma for_loop_returns {S : Type} (body : nat -> S -> outcome S) :
  (forall ii s, exists s', body ii s = Ok s') ->
  forall count lo s, exists s', for_loop body lo count s = Ok s'.
Proof.
  intros Hb; induction count as [|c IH]; intros lo s; simpl.
  - eauto.
  - destruct (Hb lo s) as (t & ->); simpl. apply IH.
Qed.

(** A loop whose body never throws, never throws. *)
Lemma for_loop_no_throw {S : Type} (body : nat -> S -> outcome S) :
  (forall ii s e, body ii s <> Throw e) ->
  forall count lo s e, for_loop body lo count s <> Throw e.
Proof.
  intros Hb; induction count as [|c IH]; intros lo s e; simpl.
  - discriminate.
  - specialize (Hb lo s). destruct (body lo s) as [t| e' |]; simpl.
    + apply IH.
    + now contradiction (Hb e').
    + discriminate.
Qed.

(** Two loops whose bodies commute with a map of the state. *)
Lemma for_loop_commute {S : Type} (f : S -> S) (body1 body2 : nat -> S -> outcome S) :
  (forall ii s, body2 ii (f s) = omap f (body1 ii s)) ->
  forall count lo s,
    for_loop body2 lo count (f s) = omap f (for_loop body1 lo count s).
Proof.
  intros Hb; induction count as [|c IH]; intros lo s; simpl.
  - reflexivity.
  - rewrite Hb. destruct (body1 lo s) as [t| |]; simpl; auto.
Qed.

(** ** Arrays *)

Lemma assign_length (ii : nat) (v : dfloat) (a : FloatArray) :
  List.length (assign ii v a) = List.length a.
Proof.
  revert ii; induction a as [|x a IH]; intros [|ii]; simpl; auto.
Qed.

Lemma nth_assign_same (ii : nat) (v : dfloat) (a : FloatArray) :
  (ii < List.length a)%nat -> nth ii (assign ii v a) 0 = v.
Proof.
  revert ii; induction a as [|x a IH]; intros [|ii] H; simpl in *; try lia; auto.
  apply IH; lia.
Qed.

Lemma nth_assign_other (ii jj : nat) (v : dfloat) (a : FloatArray) :
  ii <> jj -> nth jj (assign ii v a) 0 = nth jj a 0.
Proof.
  revert ii jj; induction a as [|x a IH]; intros [|ii] [|jj] H; simpl; auto; try lia.
Qed.

Lemma nth_map_Ropp (k : nat) (t : list dfloat) : nth k (map Ropp t) 0 = - nth k t 0.
Proof.
  revert k; induction t as [|x t IH]; intros [|k]; simpl; auto; lra.
Qed.

Lemma map_Ropp_involutive (t : list dfloat) : map Ropp (map Ropp t) = t.
Proof.
  induction t as [|x t IH]; simpl; auto. rewrite IH. f_equal. lra.
Qed.

(** ** Minimum, maximum and the clamp *)

Lemma std_max_ge_left (a b : dfloat) : a <= std_max a b.
Proof. unfold std_max, Rltb; destruct (Rlt_dec a b); lra. Qed.

Lemma std_min_le_left (a b : dfloat) : std_min a b <= a.
Proof. unfold std_min, Rltb; destruct (Rlt_dec b a); lra. Qed.

Lemma std_min_le_right (a b : dfloat) : std_min a b <= b.
Proof. unfold std_min, Rltb; destruct (Rlt_dec b a); lra. Qed.

Lemma std_max_opp (a b : dfloat) : std_max (- a) (- b) = - std_min a b.
Proof.
  unfold std_max, std_min, Rltb.
  destruct (Rlt_dec (- a) (- b)), (Rlt_dec b a); lra.
Qed.

Lemma clamp_extreme (invert : bool) (v val raw : dfloat) :
  at_least_as_extreme invert v raw ->
  at_least_as_extreme invert (if invert then std_min v val else std_max v val) raw.
Proof.
  unfold at_least_as_extreme; destruct invert; intros H.
  - pose proof (std_min_le_left v val); lra.
  - pose proof (std_max_ge_left v val); lra.
Qed.

(** ** Addressing *)

Lemma uint_sub_1 (n : N) : (1 <= n < 2 ^ 64)%N -> uint_sub n 1 = (n - 1)%N.
Proof.
  intros H. unfold uint_sub.
  rewrite (N.mod_small 1) by (apply N.pow_gt_1; lia).
  replace (n + 2 ^ 64 - 1)%N with ((n - 1) + 1 * 2 ^ 64)%N by lia.
  rewrite N.Div0.mod_add. apply N.mod_small. lia.
Qed.

Lemma coords_inside_true (img : Image) :
  forall coords ii,
    (forall k, (k < List.length coords)%nat -> (nth k coords 0 < Size img (ii + k))%N) ->
    coords_inside img coords ii = true.
Proof.
  induction coords as [|c r IH]; intros ii H; simpl; auto.
  apply andb_true_iff; split.
  - apply N.ltb_lt. specialize (H 0%nat). rewrite Nat.add_0_r in H. apply H. simpl; lia.
  - apply IH. intros k Hk. specialize (H (S k)). simpl in H.
    replace (S ii + k)%nat with (ii + S k)%nat by lia. apply H. lia.
Qed.

Lemma Pointer_in_bounds (img : Image) (position : UnsignedArray) :
  List.length position = Dimensionality img ->
  in_bounds img position ->
  Pointer img position = Ok (offset_sum img position 0).
Proof.
  intros Hlen Hin. unfold Pointer, Offset, THROW_IF.
  rewrite Hlen, Nat.eqb_refl; simpl.
  rewrite coords_inside_true; auto.
  intros k Hk; simpl. apply Hin. now rewrite <- Hlen.
Qed.

Lemma At_in_bounds (img : Image) (position : UnsignedArray) :
  List.length position = Dimensionality img ->
  in_bounds img position ->
  At img position = Ok (Data img (offset_sum img position 0)).
Proof.
  intros Hlen Hin. unfold At. now rewrite Pointer_in_bounds.
Qed.

Lemma interior_in_bounds (img : Image) (position : UnsignedArray) :
  interior img position -> in_bounds img position.
Proof. intros H ii Hii. destruct (H ii Hii). lia. Qed.

(** ** The border test of [SubpixelLocation] *)

Lemma border_loop_interior (img : Image) (position : UnsignedArray) :
  (forall ii, (Size img ii < 2 ^ 64)%N) ->
  forall count lo,
    (forall ii, (lo <= ii < lo + count)%nat ->
                (1 <= nth ii position 0)%N /\ (nth ii position 0 + 1 < Size img ii)%N) ->
    border_loop img position lo count = None.
Proof.
  intros Hsz; induction count as [|c IH]; intros lo H; simpl; auto.
  destruct (H lo ltac:(lia)) as [H1 H2].
  rewrite uint_sub_1 by (split; [lia | apply Hsz]).
  replace (N.ltb (nth lo position 0%N) 1) with false by (symmetry; apply N.ltb_ge; lia).
  replace (N.leb (Size img lo - 1) (nth lo position 0%N)) with false
    by (symmetry; apply N.leb_gt; lia).
  simpl. apply IH. intros ii Hii; apply H; lia.
Qed.

Lemma border_loop_border (img : Image) (position : UnsignedArray) :
  (forall ii, (Size img ii < 2 ^ 64)%N) ->
  forall count lo bb,
    (forall ii, (lo <= ii < lo + count)%nat -> (nth ii position 0 < Size img ii)%N) ->
    (lo <= bb < lo + count)%nat ->
    on_border img position bb ->
    border_loop img position lo count =
    Some (v <- At img position ;; Ok (mk_result (map to_dfloat position) v)).
Proof.
  intros Hsz; induction count as [|c IH]; intros lo bb Hin Hbb Hb; simpl; [lia|].
  pose proof (Hin lo ltac:(lia)) as Hlo.
  destruct (N.ltb (nth lo position 0%N) 1 || N.leb (uint_sub (Size img lo) 1) (nth lo position 0%N))
    eqn:Etest.
  - unfold THROW_IF.
    replace (N.leb (Size img lo) (nth lo position 0%N)) with false
      by (symmetry; apply N.leb_gt; lia).
    reflexivity.
  - apply orb_false_iff in Etest as [E1 E2].
    apply N.ltb_ge in E1. apply N.leb_gt in E2.
    rewrite uint_sub_1 in E2 by (split; [lia | apply Hsz]).
    assert (bb <> lo).
    { intros ->. destruct Hb as [Hb|Hb]; lia. }
    apply (IH (S lo) bb); auto.
    + intros ii Hii; apply Hin; lia.
    + lia.
Qed.

Lemma SubpixelLocation_checks Solve (img : Image) (position : UnsignedArray)
  (polarity s_method : string) :
  valid_image img ->
  List.length position = Dimensionality img ->
  SubpixelLocation Solve img position polarity s_method =
  match border_loop img position 0 (Dimensionality img) with
  | Some r => r
  | None =>
      invert <- BooleanFromString polarity S_MINIMUM S_MAXIMUM ;;
      method <- ParseMethod s_method (Dimensionality img) ;;
      SubpixelLocationInternal Solve img position method invert
  end.
Proof.
  intros [Hf Hs Hr Hd Hsz] Hlen. unfold SubpixelLocation, THROW_IF.
  rewrite Hf, Hs, Hr, Hlen, Nat.eqb_refl; simpl.
  replace (Nat.ltb (Dimensionality img) 1) with false
    by (symmetry; apply Nat.ltb_ge; lia).
  reflexivity.
Qed.

Lemma SubpixelLocation_interior Solve (img : Image) (position : UnsignedArray)
  (polarity s_method : string) :
  valid_image img ->
  List.length position = Dimensionality img ->
  interior img position ->
  SubpixelLocation Solve img position polarity s_method =
  (invert <- BooleanFromString polarity S_MINIMUM S_MAXIMUM ;;
   method <- ParseMethod s_method (Dimensionality img) ;;
   SubpixelLocationInternal Solve img position method invert).
Proof.
  intros Hv Hlen Hint. rewrite SubpixelLocation_checks by assumption.
  rewrite border_loop_interior; auto.
  - apply Hv.
  - intros ii Hii; apply Hint; lia.
Qed.

(** C1: a candidate inside the image that lies on the first or last sample
    of some axis is returned from the border test: the coordinates are the
    candidate's, the value is the sample there; the method and polarity
    strings are not looked at and the solver is not called. *)
Theorem SubpixelLocation_border Solve (img : Image) (position : UnsignedArray)
  (polarity s_method : string) (bb : nat) :
  valid_image img ->
  List.length position = Dimensionality img ->
  in_bounds img position ->
  (bb < Dimensionality img)%nat ->
  on_border img position bb ->
  exists raw,
    At img position = Ok raw /\
    border_loop img position 0 (Dimensionality img)
      = Some (Ok (mk_result (map to_dfloat position) raw)) /\
    SubpixelLocation Solve img position polarity s_method
      = Ok (mk_result (map to_dfloat position) raw).
Proof.
  intros Hv Hlen Hin Hbb Hb.
  exists (Data img (offset_sum img position 0)).
  assert (HAt := At_in_bounds img position Hlen Hin).
  assert (Hloop := border_loop_border img position (valid_sizes _ Hv)
                     (Dimensionality img) 0%nat bb
                     (fun ii Hii => Hin ii (proj2 Hii)) (conj (Nat.le_0_l bb) Hbb) Hb).
  rewrite HAt in Hloop; simpl in Hloop.
  repeat split; auto.
  rewrite SubpixelLocation_checks by assumption. now rewrite Hloop.
Qed.

(** ** The value that [SubpixelLocationInternal] reports *)

Lemma at_least_as_extreme_refl (invert : bool) (v : dfloat) : at_least_as_extreme invert v v.
Proof. destruct invert; simpl; lra. Qed.

Lemma log_transform_no_throw (t : list dfloat) (n : nat) (invert : bool) (e : Error) :
  log_transform t n invert <> Throw e.
Proof.
  revert t; induction n as [|n IH]; intros [|x t]; simpl; try discriminate.
  unfold std_log. destruct (0 <? _); simpl; try discriminate.
  specialize (IH t). destruct (log_transform t n invert); simpl; try discriminate.
  now intros H; apply IH.
Qed.

Lemma linear_axis_returns (img : Image) (p : Z) (position : UnsignedArray) (invert : bool)
  (ii : nat) (out : SubpixelLocationResult) :
  exists out', linear_axis img p position invert ii out = Ok out' /\ value out' = value out.
Proof.
  unfold linear_axis. destruct (negb _); eexists; split; reflexivity.
Qed.

Lemma separable_axis_extreme (img : Image) (p : Z) (position : UnsignedArray)
  (method : SubpixelExtremumMethod) (invert : bool) (ii : nat)
  (out out' : SubpixelLocationResult) (raw : dfloat) :
  separable_axis img p position method invert ii out = Ok out' ->
  at_least_as_extreme invert (value out) raw ->
  at_least_as_extreme invert (value out') raw.
Proof.
  unfold separable_axis. intros H Hv.
  apply bind_Ok_inv in H as (t & _ & H).
  destruct (negb _); injection H as <-; simpl; auto.
  now apply clamp_extreme.
Qed.

Lemma separable_axis_no_throw (img : Image) (p : Z) (position : UnsignedArray)
  (method : SubpixelExtremumMethod) (invert : bool) (ii : nat)
  (out : SubpixelLocationResult) (e : Error) :
  separable_axis img p position method invert ii out <> Throw e.
Proof.
  unfold separable_axis.
  match goal with |- bind ?m _ <> _ => destruct m as [t|e'|] eqn:E end; simpl.
  - destruct (negb _); discriminate.
  - destruct method; try discriminate; now apply log_transform_no_throw in E.
  - discriminate.
Qed.

Lemma separable_axis_parabolic_returns (img : Image) (p : Z) (position : UnsignedArray)
  (method : SubpixelExtremumMethod) (invert : bool) (ii : nat) (out : SubpixelLocationResult) :
  method <> GAUSSIAN_SEPARABLE ->
  exists out', separable_axis img p position method invert ii out = Ok out'.
Proof.
  intros Hm. unfold separable_axis.
  destruct method; try contradiction; simpl; destruct (negb _); eauto.
Qed.

Lemma joint_fit_value Solve (img : Image) (p : Z) (position : UnsignedArray)
  (method : SubpixelExtremumMethod) (out out' : SubpixelLocationResult) (val : dfloat) :
  joint_fit Solve img p position method out = Ok (out', val) ->
  value out' = value out.
Proof.
  unfold joint_fit. intros H.
  destruct (Dimensionality img) as [|[|[|[|n]]]]; try discriminate;
    apply bind_Ok_inv in H as (t & _ & H);
    match type of H with (if ?c then _ else _) = _ => destruct c end;
    injection H as <- _; reflexivity.
Qed.

Lemma joint_fit_outcome Solve (img : Image) (p : Z) (position : UnsignedArray)
  (method : SubpixelExtremumMethod) (out : SubpixelLocationResult) :
  Dimensionality img = 2%nat \/ Dimensionality img = 3%nat ->
  (exists r, joint_fit Solve img p position method out = Ok r)
  \/ (method = GAUSSIAN /\ joint_fit Solve img p position method out = NonReal).
Proof.
  unfold joint_fit. intros [-> | ->];
    match goal with |- (exists r, bind ?m _ = _) \/ _ => destruct m as [t|e|] eqn:E end;
    simpl.
  1, 4: left; match goal with |- exists r, (if ?c then _ else _) = _ => destruct c end; eauto.
  all: destruct method; try discriminate; try (now apply log_transform_no_throw in E);
    right; auto.
Qed.

(** Whenever [SubpixelLocationInternal] returns, the value is at least as
    extreme as the sample at the candidate. *)
Lemma SubpixelLocationInternal_extreme Solve (img : Image) (position : UnsignedArray)
  (method : SubpixelExtremumMethod) (invert : bool) (res : SubpixelLocationResult) (p : Z) :
  Pointer img position = Ok p ->
  SubpixelLocationInternal Solve img position method invert = Ok res ->
  at_least_as_extreme invert (value res) (Data img p).
Proof.
  intros Hp H. unfold SubpixelLocationInternal in H. rewrite Hp in H; simpl in H.
  set (out := mk_result _ _) in H.
  assert (H0 : at_least_as_extreme invert (value out) (Data img p))
    by apply at_least_as_extreme_refl.
  pose (Inv := fun (_ : nat) (s : SubpixelLocationResult) =>
                 at_least_as_extreme invert (value s) (Data img p)).
  destruct method.
  - apply (for_loop_invariant _ Inv _ _ _ _ H0) in H; auto.
    intros ii t t' _ Ht Hb. unfold Inv in *.
    destruct (linear_axis_returns img p position invert ii t) as (u & Hu & Hv).
    rewrite Hu in Hb; injection Hb as <-. now rewrite Hv.
  - apply (for_loop_invariant _ Inv _ _ _ _ H0) in H; auto.
    intros ii t t' _ Ht Hb. eapply separable_axis_extreme; eauto.
  - apply (for_loop_invariant _ Inv _ _ _ _ H0) in H; auto.
    intros ii t t' _ Ht Hb. eapply separable_axis_extreme; eauto.
  - apply bind_Ok_inv in H as ([out' val] & Hj & H). injection H as <-.
    apply joint_fit_value in Hj. simpl. rewrite Hj. now apply clamp_extreme.
  - apply bind_Ok_inv in H as ([out' val] & Hj & H). injection H as <-.
    apply joint_fit_value in Hj. simpl. rewrite Hj. now apply clamp_extreme.
  - apply (for_loop_invariant _ Inv _ _ _ _ H0) in H; auto.
    intros ii t t' _ Ht Hb. injection Hb as <-. exact Ht.
Qed.

(** On a supported configuration [SubpixelLocationInternal] returns, unless a
    Gaussian fit met a logarithm of a non-positive number. *)
Lemma SubpixelLocationInternal_outcome Solve (img : Image) (position : UnsignedArray)
  (method : SubpixelExtremumMethod) (invert : bool) (p : Z) :
  Pointer img position = Ok p ->
  (is_joint method = true -> Dimensionality img = 2%nat \/ Dimensionality img = 3%nat) ->
  (exists res, SubpixelLocationInternal Solve img position method invert = Ok res)
  \/ (is_gaussian method = true
      /\ SubpixelLocationInternal Solve img position method invert = NonReal).
Proof.
  intros Hp Hd. unfold SubpixelLocationInternal. rewrite Hp; simpl.
  destruct method; simpl in Hd.
  - left. apply for_loop_returns. intros ii s.
    destruct (linear_axis_returns img p position invert ii s) as (u & Hu & _); eauto.
  - left. apply for_loop_returns. intros ii s.
    now apply separable_axis_parabolic_returns.
  - match goal with |- (exists r, ?m = _) \/ _ => destruct m as [r|e|] eqn:E end.
    + left; eauto.
    + exfalso. revert E. apply for_loop_no_throw. intros; apply separable_axis_no_throw.
    + right; auto.
  - destruct (joint_fit_outcome Solve img p position PARABOLIC
                (mk_result (repeat 0 (Dimensionality img)) (Data img p)) (Hd eq_refl))
      as [([o v] & ->) | (Hm & _)]; [|discriminate].
    left; simpl; eauto.
  - destruct (joint_fit_outcome Solve img p position GAUSSIAN
                (mk_result (repeat 0 (Dimensionality img)) (Data img p)) (Hd eq_refl))
      as [([o v] & ->) | (_ & ->)].
    + left; simpl; eauto.
    + right; auto.
  - left. apply for_loop_returns. intros ii s. unfold integer_axis; eauto.
Qed.


(** ** A rejected joint fit *)

(** A rejected fit leaves the caller's [val] as it was. *)
Lemma solve_2d_rejected (a0 a1 a2 a3 a4 a5 x y val : dfloat) :
  fit2_ok (solve_2d a0 a1 a2 a3 a4 a5 x y val) = false ->
  fit2_val (solve_2d a0 a1 a2 a3 a4 a5 x y val) = val.
Proof.
  unfold solve_2d. destruct (_ =? 0); simpl; auto.
  destruct (_ || _); simpl; auto. discriminate.
Qed.

Lemma quadratic_fit_3x3x3_rejected Solve (t : list dfloat) (x y z val : dfloat) :
  fit3_ok (quadratic_fit_3x3x3 Solve t x y z val) = false ->
  fit3_val (quadratic_fit_3x3x3 Solve t x y z val) = val.
Proof.
  unfold quadratic_fit_3x3x3.
  destruct (_ || _); cbn [fit3_ok fit3_val]; auto. discriminate.
Qed.


(** Evaluate a call on a concrete image, keeping the real numbers symbolic. *)
Ltac evaluate :=
  cbv -[Rplus Rmult Rminus Rdiv Ropp Rinv IZR Rltb Reqb Rleb exp ln Rabs];
  Rdecide.

(** C3: on a constant 3x3 image of value [-1] the joint parabolic fit is
    rejected (the determinant is zero); [SubpixelLocation] raises no error and
    keeps the integer coordinates, but the value it reports for a maximum is
    [0], the initial content of the local [val], and not the raw sample
    [-1]. *)
Theorem rejected_fit_reports_zero Solve :
  fit2_ok (quadratic_fit_3x3 (stencil_2d flat_3x3 4) 0 0 0) = false /\
  At flat_3x3 [1; 1]%N = Ok (-1) /\
  SubpixelLocation Solve flat_3x3 [1; 1]%N S_MAXIMUM S_PARABOLIC
  = Ok (mk_result [1; 1] 0).
Proof.
  split; [|split].
  - evaluate. reflexivity.
  - reflexivity.
  - evaluate. cbv [fit2_ok fit2_val coordinates value assign nth]. Rdecide.
    reflexivity.
Qed.

(** What the joint parabolic fit in two dimensions returns when
    [quadratic_fit_3x3] rejects the fit: the integer coordinates, and the raw
    sample clamped against zero. *)
Lemma rejected_parabolic_fit_2d Solve (img : Image) (p0 p1 : N) (invert : bool) (p : Z) :
  Dimensionality img = 2%nat ->
  Pointer img [p0; p1]%N = Ok p ->
  fit2_ok (quadratic_fit_3x3 (stencil_2d img p) 0 0 0) = false ->
  SubpixelLocationInternal Solve img [p0; p1]%N PARABOLIC invert
  = Ok (mk_result [to_dfloat p0; to_dfloat p1]
          (if invert then std_min (Data img p) 0 else std_max (Data img p) 0)).
Proof.
  intros Hd Hp Hrej. unfold SubpixelLocationInternal, joint_fit.
  rewrite Hp, Hd. cbn [bind]. rewrite Hrej.
  unfold quadratic_fit_3x3 in *. rewrite solve_2d_rejected by exact Hrej.
  reflexivity.
Qed.

(** ** Negating the samples *)

Lemma accumulate_opp (w t : list dfloat) :
  forall count kk jj acc,
    accumulate w (map Ropp t) kk jj count (- acc)
    = (- fst (accumulate w t kk jj count acc), snd (accumulate w t kk jj count acc)).
Proof.
  induction count as [|c IH]; intros kk jj acc; simpl.
  - reflexivity.
  - rewrite nth_map_Ropp.
    replace (- acc + nth kk w 0 * - nth jj t 0) with (- (acc + nth kk w 0 * nth jj t 0))
      by ring.
    apply IH.
Qed.

Lemma least_squares_opp (w t : list dfloat) (cols : nat) (divisor : dfloat) :
  forall rows kk,
    least_squares w (map Ropp t) cols divisor kk rows
    = map Ropp (least_squares w t cols divisor kk rows).
Proof.
  induction rows as [|r IH]; intros kk; simpl.
  - reflexivity.
  - replace 0 with (- 0) at 1 by ring.
    rewrite accumulate_opp.
    destruct (accumulate w t kk 0 cols 0) as [acc kk']; simpl.
    rewrite IH. f_equal. unfold Rdiv. ring.
Qed.

Lemma solve_2d_opp (a0 a1 a2 a3 a4 a5 x y val : dfloat) :
  solve_2d (- a0) (- a1) (- a2) (- a3) (- a4) (- a5) x y (- val)
  = negate_fit2 (solve_2d a0 a1 a2 a3 a4 a5 x y val).
Proof.
  unfold solve_2d.
  replace (- a5 * - a5 - 4 * - a3 * - a4) with (a5 * a5 - 4 * a3 * a4) by ring.
  replace (2 * - a4 * - a1 - - a5 * - a2) with (2 * a4 * a1 - a5 * a2) by ring.
  replace (2 * - a3 * - a2 - - a5 * - a1) with (2 * a3 * a2 - a5 * a1) by ring.
  destruct (_ =? 0); [reflexivity|].
  destruct (_ || _); [reflexivity|].
  unfold negate_fit2; simpl. f_equal. ring.
Qed.

Lemma quadratic_fit_3x3_opp (t : list dfloat) (x y : dfloat) :
  quadratic_fit_3x3 (map Ropp t) x y 0 = negate_fit2 (quadratic_fit_3x3 t x y 0).
Proof.
  unfold quadratic_fit_3x3. rewrite least_squares_opp, !nth_map_Ropp.
  replace 0 with (- 0) at 7 by ring.
  apply solve_2d_opp.
Qed.

Lemma gradient_matrix_opp (a : list dfloat) :
  gradient_matrix (map Ropp a) = map Ropp (gradient_matrix a).
Proof.
  unfold gradient_matrix; simpl. rewrite !nth_map_Ropp.
  repeat (f_equal; try ring).
Qed.

Lemma gradient_rhs_opp (a : list dfloat) :
  gradient_rhs (map Ropp a) = map Ropp (gradient_rhs a).
Proof.
  unfold gradient_rhs; simpl. now rewrite !nth_map_Ropp.
Qed.

Lemma quadratic_fit_3x3x3_opp Solve (t : list dfloat) (x y z : dfloat) :
  Solve_even Solve ->
  quadratic_fit_3x3x3 Solve (map Ropp t) x y z 0
  = negate_fit3 (quadratic_fit_3x3x3 Solve t x y z 0).
Proof.
  intros HS. unfold quadratic_fit_3x3x3.
  rewrite least_squares_opp, gradient_matrix_opp, gradient_rhs_opp, HS, !nth_map_Ropp.
  destruct (_ || _); unfold negate_fit3;
    cbn [fit3_ok fit3_x fit3_y fit3_z fit3_val]; f_equal; ring.
Qed.

(** Logarithms of the negated samples. *)
Lemma log_transform_opp (t : list dfloat) (n : nat) (invert : bool) :
  (List.length t <= n)%nat ->
  log_transform (map Ropp t) n (negb invert) = log_transform t n invert.
Proof.
  revert t; induction n as [|n IH]; intros [|x t] H; simpl in *; auto; try lia.
  rewrite IH by lia.
  destruct invert; simpl; auto.
  now rewrite Ropp_involutive.
Qed.

Lemma log_transform_nonpositive (t : list dfloat) (n k : nat) (invert : bool) :
  (k < n)%nat -> (k < List.length t)%nat ->
  (if invert then - nth k t 0 else nth k t 0) <= 0 ->
  log_transform t n invert = NonReal.
Proof.
  revert t k; induction n as [|n IH]; intros [|x t] [|k] Hn Hl H; simpl in *; try lia.
  - unfold std_log.
    replace (0 <? (if invert then - x else x)) with false
      by (symmetry; apply Rltb_false; exact H).
    reflexivity.
  - rewrite (IH t k) by (auto; lia).
    unfold std_log. destruct (0 <? _); reflexivity.
Qed.

(** The sign test and the logarithms of a stencil and of its negation: either
    both leave the real numbers, or they give the same logarithms, one with
    the inversion flag set and the other without. *)
Lemma gaussian_logs_opp (t : list dfloat) (n c : nat) :
  (c < List.length t)%nat -> (List.length t <= n)%nat ->
  let inverted := nth c t 0 <? 0 in
  let inverted' := nth c (map Ropp t) 0 <? 0 in
  (log_transform t n inverted = NonReal /\ log_transform (map Ropp t) n inverted' = NonReal)
  \/ (inverted' = negb inverted
      /\ log_transform (map Ropp t) n inverted' = log_transform t n inverted).
Proof.
  intros Hl Hle; assert (Hn : (c < n)%nat) by lia; cbv zeta. rewrite nth_map_Ropp.
  destruct (Rtotal_order (nth c t 0) 0) as [Hneg | [Hz | Hpos]].
  - right.
    replace (nth c t 0 <? 0) with true by (symmetry; apply Rltb_true; lra).
    replace (- nth c t 0 <? 0) with false by (symmetry; apply Rltb_false; lra).
    split; auto. now apply (log_transform_opp t n true).
  - left. rewrite Hz.
    replace (0 <? 0) with false by (symmetry; apply Rltb_false; lra).
    replace (- 0 <? 0) with false by (symmetry; apply Rltb_false; lra).
    split.
    + apply (log_transform_nonpositive t n c false); auto; simpl; lra.
    + apply (log_transform_nonpositive (map Ropp t) n c false); auto.
      * now rewrite length_map.
      * rewrite nth_map_Ropp; lra.
  - right.
    replace (nth c t 0 <? 0) with false by (symmetry; apply Rltb_false; lra).
    replace (- nth c t 0 <? 0) with true by (symmetry; apply Rltb_true; lra).
    split; auto. now apply (log_transform_opp t n false).
Qed.

(** ** Minimum polarity against maximum polarity on the negated image *)

Lemma negate_value_involutive (r : SubpixelLocationResult) :
  negate_value (negate_value r) = r.
Proof. destruct r as [c v]; unfold negate_value; simpl. now rewrite Ropp_involutive. Qed.

Lemma Reqb_opp (x y : R) : x = - y -> (x =? 0) = (y =? 0).
Proof.
  intros ->. unfold Reqb.
  destruct (Req_dec_T (- y) 0), (Req_dec_T y 0); auto; exfalso; lra.
Qed.

Lemma linear_axis_negate (img : Image) (p : Z) (position : UnsignedArray) (ii : nat)
  (out : SubpixelLocationResult) :
  linear_axis (negate_image img) p position false ii (negate_value out)
  = omap negate_value (linear_axis img p position true ii out).
Proof.
  unfold linear_axis.
  change (line_samples (negate_image img) p ii) with (map Ropp (line_samples img p ii)).
  cbv iota. destruct (negb _); reflexivity.
Qed.

Lemma separable_axis_negate (img : Image) (p : Z) (position : UnsignedArray)
  (method : SubpixelExtremumMethod) (ii : nat) (out : SubpixelLocationResult) :
  separable_axis (negate_image img) p position method false ii (negate_value out)
  = omap negate_value (separable_axis img p position method true ii out).
Proof.
  unfold separable_axis.
  change (line_samples (negate_image img) p ii) with (map Ropp (line_samples img p ii)).
  set (t := line_samples img p ii).
  assert (Hparabolic :
    (let u := map Ropp t in
     let o := set_coordinate ii (to_dfloat (nth ii position 0%N)) (negate_value out) in
     let m := nth 0 u 0 - 2 * nth 1 u 0 + nth 2 u 0 in
     if negb (m =? 0)
     then
       let o := set_coordinate ii
                  (nth ii (coordinates o) 0 + (nth 0 u 0 - nth 2 u 0) / (2 * m)) o in
       let b := nth 1 u 0 - (nth 0 u 0 - nth 2 u 0) * (nth 0 u 0 - nth 2 u 0) / (8 * m) in
       Ok (set_value (std_max (value o) b) o)
     else Ok o)
    = omap negate_value
        (let o := set_coordinate ii (to_dfloat (nth ii position 0%N)) out in
         let m := nth 0 t 0 - 2 * nth 1 t 0 + nth 2 t 0 in
         if negb (m =? 0)
         then
           let o := set_coordinate ii
                      (nth ii (coordinates o) 0 + (nth 0 t 0 - nth 2 t 0) / (2 * m)) o in
           let b := nth 1 t 0 - (nth 0 t 0 - nth 2 t 0) * (nth 0 t 0 - nth 2 t 0) / (8 * m) in
           Ok (set_value (std_min (value o) b) o)
         else Ok o)).
  { cbv zeta. rewrite !nth_map_Ropp.
    set (a := nth 0 t 0); set (b := nth 1 t 0); set (c := nth 2 t 0).
    rewrite (Reqb_opp (- a - 2 * - b + - c) (a - 2 * b + c)) by ring.
    destruct (a - 2 * b + c =? 0) eqn:Em; simpl; [reflexivity|].
    apply Reqb_false in Em.
    unfold set_value, set_coordinate, negate_value; simpl.
    replace ((- a - - c) / (2 * (- a - 2 * - b + - c)))
      with ((a - c) / (2 * (a - 2 * b + c))) by (field; lra).
    replace (- b - (- a - - c) * (- a - - c) / (8 * (- a - 2 * - b + - c)))
      with (- (b - (a - c) * (a - c) / (8 * (a - 2 * b + c)))) by (field; lra).
    now rewrite std_max_opp. }
  destruct method; try exact Hparabolic.
  (* GAUSSIAN_SEPARABLE *)
  cbv beta iota zeta.
  destruct (gaussian_logs_opp t 3 1) as [[E1 E2] | [Ei E]]; try (simpl; lia).
  - cbv zeta in E1, E2. rewrite E1, E2. reflexivity.
  - cbv zeta in Ei, E. rewrite E, Ei.
    destruct (nth 1 t 0 <? 0);
      (destruct (log_transform t 3 _) as [u| |]; try reflexivity);
      simpl bind; cbv zeta;
      (destruct (nth 0 u 0 - 2 * nth 1 u 0 + nth 2 u 0 =? 0); simpl; [reflexivity|]);
      unfold set_value, set_coordinate, negate_value; simpl.
    + rewrite <- std_max_opp. now rewrite Ropp_involutive.
    + now rewrite std_max_opp.
Qed.

Lemma undo_log_negb (inverted : bool) (val : dfloat) :
  undo_log true (negb inverted) val = - undo_log true inverted val.
Proof. destruct inverted; simpl; lra. Qed.

Lemma joint_fit_negate Solve (img : Image) (p : Z) (position : UnsignedArray)
  (method : SubpixelExtremumMethod) (out : SubpixelLocationResult) :
  Solve_even Solve ->
  joint_fit Solve (negate_image img) p position method (negate_value out)
  = omap (fun r => (negate_value (fst r), - snd r))
      (joint_fit Solve img p position method out).
Proof.
  intros HS. unfold joint_fit.
  change (Dimensionality (negate_image img)) with (Dimensionality img).
  change (stencil_2d (negate_image img) p) with (map Ropp (stencil_2d img p)).
  change (stencil_3d (negate_image img) p) with (map Ropp (stencil_3d img p)).
  destruct (Dimensionality img) as [|[|[|[|n]]]]; try reflexivity.
  - (* two dimensions *)
    set (t := stencil_2d img p).
    assert (Hfit : forall u : list R,
      (let o := set_coordinate 0 (to_dfloat (nth 0 position 0%N)) (negate_value out) in
       let o := set_coordinate 1 (to_dfloat (nth 1 position 0%N)) o in
       let fit := quadratic_fit_3x3 (map Ropp u) 0 0 0 in
       if fit2_ok fit
       then
         let o := set_coordinate 0 (nth 0 (coordinates o) 0 + fit2_x fit) o in
         let o := set_coordinate 1 (nth 1 (coordinates o) 0 + fit2_y fit) o in
         Ok (o, fit2_val fit)
       else Ok (o, fit2_val fit))
      = omap (fun r => (negate_value (fst r), - snd r))
          (let o := set_coordinate 0 (to_dfloat (nth 0 position 0%N)) out in
           let o := set_coordinate 1 (to_dfloat (nth 1 position 0%N)) o in
           let fit := quadratic_fit_3x3 u 0 0 0 in
           if fit2_ok fit
           then
             let o := set_coordinate 0 (nth 0 (coordinates o) 0 + fit2_x fit) o in
             let o := set_coordinate 1 (nth 1 (coordinates o) 0 + fit2_y fit) o in
             Ok (o, fit2_val fit)
           else Ok (o, fit2_val fit))).
    { intros u. cbv zeta. rewrite quadratic_fit_3x3_opp.
      destruct (quadratic_fit_3x3 u 0 0 0) as [ok x y v]; simpl.
      destruct ok; reflexivity. }
    destruct method; try exact (Hfit t).
    (* GAUSSIAN *)
    cbv beta iota zeta.
    destruct (gaussian_logs_opp t 9 4) as [[E1 E2] | [Ei E]]; try (simpl; lia).
    + cbv zeta in E1, E2. rewrite E1, E2. reflexivity.
    + cbv zeta in Ei, E. rewrite E, Ei.
      destruct (log_transform t 9 (nth 4 t 0 <? 0)) as [u| |]; try reflexivity.
      cbn [bind].
      destruct (fit2_ok (quadratic_fit_3x3 u 0 0 0)) eqn:Eok.
      * rewrite undo_log_negb. reflexivity.
      * unfold quadratic_fit_3x3 in *. rewrite solve_2d_rejected by exact Eok. simpl.
        unfold negate_value; simpl. do 2 f_equal. lra.
  - (* three dimensions *)
    set (t := stencil_3d img p).
    assert (Hfit : forall u : list R,
      (let o := set_coordinate 0 (to_dfloat (nth 0 position 0%N)) (negate_value out) in
       let o := set_coordinate 1 (to_dfloat (nth 1 position 0%N)) o in
       let o := set_coordinate 2 (to_dfloat (nth 2 position 0%N)) o in
       let fit := quadratic_fit_3x3x3 Solve (map Ropp u) 0 0 0 0 in
       if fit3_ok fit
       then
         let o := set_coordinate 0 (nth 0 (coordinates o) 0 + fit3_x fit) o in
         let o := set_coordinate 1 (nth 1 (coordinates o) 0 + fit3_y fit) o in
         let o := set_coordinate 2 (nth 2 (coordinates o) 0 + fit3_z fit) o in
         Ok (o, fit3_val fit)
       else Ok (o, fit3_val fit))
      = omap (fun r => (negate_value (fst r), - snd r))
          (let o := set_coordinate 0 (to_dfloat (nth 0 position 0%N)) out in
           let o := set_coordinate 1 (to_dfloat (nth 1 position 0%N)) o in
           let o := set_coordinate 2 (to_dfloat (nth 2 position 0%N)) o in
           let fit := quadratic_fit_3x3x3 Solve u 0 0 0 0 in
           if fit3_ok fit
           then
             let o := set_coordinate 0 (nth 0 (coordinates o) 0 + fit3_x fit) o in
             let o := set_coordinate 1 (nth 1 (coordinates o) 0 + fit3_y fit) o in
             let o := set_coordinate 2 (nth 2 (coordinates o) 0 + fit3_z fit) o in
             Ok (o, fit3_val fit)
           else Ok (o, fit3_val fit))).
    { intros u. cbv zeta. rewrite quadratic_fit_3x3x3_opp by assumption.
      destruct (quadratic_fit_3x3x3 Solve u 0 0 0 0) as [ok x y z v]; simpl.
      destruct ok; reflexivity. }
    destruct method; try exact (Hfit t).
    cbv beta iota zeta.
    destruct (gaussian_logs_opp t 27 13) as [[E1 E2] | [Ei E]]; try (simpl; lia).
    + cbv zeta in E1, E2. rewrite E1, E2. reflexivity.
    + cbv zeta in Ei, E. rewrite E, Ei.
      destruct (log_transform t 27 (nth 13 t 0 <? 0)) as [u| |]; try reflexivity.
      cbn [bind].
      destruct (fit3_ok (quadratic_fit_3x3x3 Solve u 0 0 0 0)) eqn:Eok.
      * rewrite undo_log_negb. reflexivity.
      * rewrite quadratic_fit_3x3x3_rejected by exact Eok. simpl.
        unfold negate_value; simpl. do 2 f_equal. lra.
Qed.

Lemma offset_sum_negate (img : Image) (coords : UnsignedArray) :
  forall ii, offset_sum (negate_image img) coords ii = offset_sum img coords ii.
Proof. induction coords as [|c r IH]; intros ii; simpl; auto. now rewrite IH. Qed.

Lemma coords_inside_negate (img : Image) (coords : UnsignedArray) :
  forall ii, coords_inside (negate_image img) coords ii = coords_inside img coords ii.
Proof. induction coords as [|c r IH]; intros ii; simpl; auto. now rewrite IH. Qed.

Lemma Pointer_negate (img : Image) (position : UnsignedArray) :
  Pointer (negate_image img) position = Pointer img position.
Proof.
  unfold Pointer, Offset. now rewrite offset_sum_negate, coords_inside_negate.
Qed.

Lemma At_negate (img : Image) (position : UnsignedArray) :
  At (negate_image img) position = omap Ropp (At img position).
Proof.
  unfold At. rewrite Pointer_negate. destruct (Pointer img position); reflexivity.
Qed.

Lemma SubpixelLocationInternal_negate Solve (img : Image) (position : UnsignedArray)
  (method : SubpixelExtremumMethod) :
  Solve_even Solve ->
  SubpixelLocationInternal Solve (negate_image img) position method false
  = omap negate_value (SubpixelLocationInternal Solve img position method true).
Proof.
  intros HS. unfold SubpixelLocationInternal.
  rewrite Pointer_negate. destruct (Pointer img position) as [p| |]; try reflexivity.
  cbn [bind].
  change (Dimensionality (negate_image img)) with (Dimensionality img).
  set (out := mk_result (repeat 0 (Dimensionality img)) (Data img p)).
  change (mk_result (repeat 0 (Dimensionality img)) (Data (negate_image img) p))
    with (negate_value out).
  destruct method.
  - apply for_loop_commute. intros; apply linear_axis_negate.
  - apply for_loop_commute. intros; apply separable_axis_negate.
  - apply for_loop_commute. intros; apply separable_axis_negate.
  - rewrite joint_fit_negate by assumption.
    destruct (joint_fit Solve img p position PARABOLIC out) as [[o v]| |]; try reflexivity.
    simpl. unfold set_value, negate_value; simpl. now rewrite std_max_opp.
  - rewrite joint_fit_negate by assumption.
    destruct (joint_fit Solve img p position GAUSSIAN out) as [[o v]| |]; try reflexivity.
    simpl. unfold set_value, negate_value; simpl. now rewrite std_max_opp.
  - apply for_loop_commute. intros; reflexivity.
Qed.

Lemma border_loop_negate (img : Image) (position : UnsignedArray) :
  forall count lo,
    border_loop (negate_image img) position lo count
    = option_map (omap negate_value) (border_loop img position lo count).
Proof.
  induction count as [|c IH]; intros lo; simpl; auto.
  change (Size (negate_image img) lo) with (Size img lo).
  destruct (_ || _); auto.
  simpl. unfold THROW_IF. destruct (N.leb _ _); auto.
  rewrite At_negate. destruct (At img position); reflexivity.
Qed.

Lemma SubpixelLocation_negate Solve (img : Image) (position : UnsignedArray)
  (s_method : string) :
  Solve_even Solve ->
  SubpixelLocation Solve (negate_image img) position S_MAXIMUM s_method
  = omap negate_value (SubpixelLocation Solve img position S_MINIMUM s_method).
Proof.
  intros HS. unfold SubpixelLocation, THROW_IF.
  change (IsForged (negate_image img)) with (IsForged img).
  change (IsScalar (negate_image img)) with (IsScalar img).
  change (DataType_of (negate_image img)) with (DataType_of img).
  change (Dimensionality (negate_image img)) with (Dimensionality img).
  destruct (negb (IsForged img)); try reflexivity.
  destruct (negb (IsScalar img)); try reflexivity.
  destruct (negb (IsReal (DataType_of img))); try reflexivity.
  destruct (Nat.ltb _ 1); try reflexivity.
  destruct (negb (Nat.eqb _ _)); try reflexivity.
  rewrite border_loop_negate.
  destruct (border_loop img position 0 (Dimensionality img)) as [r|]; try reflexivity.
  change (BooleanFromString S_MAXIMUM S_MINIMUM S_MAXIMUM) with (@Ok bool false).
  change (BooleanFromString S_MINIMUM S_MINIMUM S_MAXIMUM) with (@Ok bool true).
  cbn [bind].
  destruct (ParseMethod s_method (Dimensionality img)) as [method| |]; try reflexivity.
  cbn [bind]. now apply SubpixelLocationInternal_negate.
Qed.


(** ** Unsupported configurations *)

Lemma ParseMethod_unrecognized (s : string) (nDims : nat) :
  recognized_method s = false -> ParseMethod s nDims = Throw (INVALID_FLAG s).
Proof.
  unfold recognized_method, ParseMethod; simpl. intros H.
  repeat (apply orb_false_iff in H; destruct H as [-> H]). reflexivity.
Qed.

Lemma ParseMethod_joint (s : string) (nDims : nat) :
  joint_method_name s = true -> nDims <> 1%nat ->
  exists method, ParseMethod s nDims = Ok method /\ is_joint method = true.
Proof.
  unfold joint_method_name, ParseMethod. intros H Hd.
  apply Nat.eqb_neq in Hd. rewrite Hd.
  apply orb_true_iff in H as [H | H]; apply String.eqb_eq in H; subst s;
    eexists; split; reflexivity.
Qed.

Lemma joint_fit_illegal Solve (img : Image) (p : Z) (position : UnsignedArray)
  (method : SubpixelExtremumMethod) (out : SubpixelLocationResult) :
  Dimensionality img <> 2%nat -> Dimensionality img <> 3%nat ->
  joint_fit Solve img p position method out = Throw ILLEGAL_DIMENSIONALITY.
Proof.
  unfold joint_fit. intros H2 H3.
  destruct (Dimensionality img) as [|[|[|[|n]]]]; try reflexivity; contradiction.
Qed.

(** C6, as the code has it: for a valid image and a candidate away from the
    border, a method string that is not one of the six names, or the name of
    a joint fit on an image of dimensionality other than 1, 2 and 3, makes
    [SubpixelLocation] throw. *)
Theorem unsupported_configuration_throws Solve (img : Image) (position : UnsignedArray)
  (polarity s_method : string) :
  valid_image img ->
  List.length position = Dimensionality img ->
  interior img position ->
  recognized_method s_method = false
  \/ (joint_method_name s_method = true
      /\ Dimensionality img <> 1%nat
      /\ Dimensionality img <> 2%nat
      /\ Dimensionality img <> 3%nat) ->
  exists e, SubpixelLocation Solve img position polarity s_method = Throw e.
Proof.
  intros Hv Hlen Hint Hcfg.
  rewrite SubpixelLocation_interior by assumption.
  destruct (BooleanFromString polarity S_MINIMUM S_MAXIMUM) as [invert|e|] eqn:Epol;
    cbn [bind].
  - destruct Hcfg as [Hu | (Hj & H1 & H2 & H3)].
    + rewrite ParseMethod_unrecognized by assumption. simpl; eauto.
    + destruct (ParseMethod_joint s_method _ Hj H1) as (method & -> & Hm). simpl.
      unfold SubpixelLocationInternal.
      rewrite (Pointer_in_bounds _ _ Hlen (interior_in_bounds _ _ Hint)). simpl.
      destruct method; try discriminate; rewrite joint_fit_illegal by assumption;
        simpl; eauto.
  - eauto.
  - unfold BooleanFromString in Epol.
    destruct (String.eqb _ _); try discriminate. destruct (String.eqb _ _); discriminate.
Qed.

(** C6, as it is stated, fails on border candidates: on the constant 3x3
    image the in-bounds candidate (0,1) with the unknown method name
    ["nearest"], and on a 3x3x3x3 image the in-bounds candidate (0,1,1,1)
    with the joint parabolic fit, are both returned unrefined, without an
    error. *)
Lemma unsupported_configuration_on_border :
  (in_bounds flat_3x3 [0; 1]%N /\
   recognized_method "nearest" = false /\
   SubpixelLocation Solve_cramer flat_3x3 [0; 1]%N S_MAXIMUM "nearest"
   = Ok (mk_result [0; 1] (-1)))
  /\
  (in_bounds flat_3x3x3x3 [0; 1; 1; 1]%N /\
   joint_method_name S_PARABOLIC = true /\ Dimensionality flat_3x3x3x3 = 4%nat /\
   SubpixelLocation Solve_cramer flat_3x3x3x3 [0; 1; 1; 1]%N S_MAXIMUM S_PARABOLIC
   = Ok (mk_result [0; 1; 1; 1] 1)).
Proof.
  split; split.
  - intros [|[|ii]] Hii; try reflexivity.
    exfalso. change (S (S ii) < 2)%nat in Hii. lia.
  - split; reflexivity.
  - intros [|[|[|[|ii]]]] Hii; try reflexivity.
    exfalso. change (S (S (S (S ii))) < 4)%nat in Hii. lia.
  - repeat split; reflexivity.
Qed.

(** ** One-dimensional images *)

(** C7: on a one-dimensional image the joint parabolic method is the
    separable parabolic method and the joint Gaussian method is the separable
    Gaussian method: [SubpixelLocation] has the same outcome for the two
    names, whatever the candidate and the polarity. *)
Theorem one_dimensional_joint_is_separable Solve (img : Image) (position : UnsignedArray)
  (polarity : string) :
  Dimensionality img = 1%nat ->
  SubpixelLocation Solve img position polarity S_PARABOLIC
  = SubpixelLocation Solve img position polarity S_PARABOLIC_SEPARABLE
  /\ SubpixelLocation Solve img position polarity S_GAUSSIAN
     = SubpixelLocation Solve img position polarity S_GAUSSIAN_SEPARABLE.
Proof.
  intros H1. unfold SubpixelLocation. rewrite H1. split; reflexivity.
Qed.

(** ** [MeanShift] *)

Lemma array_add_zero (pt : FloatArray) :
  forall n, List.length pt = n -> array_add pt (repeat 0 n) = pt.
Proof.
  induction pt as [|x pt IH]; intros [|n] H; simpl in *; try discriminate; auto.
  rewrite IH by lia. f_equal. lra.
Qed.

Lemma norm_square_zero (n : nat) : norm_square (repeat 0 n) = 0.
Proof.
  unfold norm_square. induction n as [|n IH]; simpl; auto.
  replace (0 + 0 * 0) with 0 by lra. exact IH.
Qed.

Lemma MeanShift_accepts Resample (fuel : nat) (img : Image) (start : FloatArray)
  (epsilon : dfloat) :
  ~ MeanShift_rejects img start epsilon ->
  MeanShift Resample fuel img start epsilon
  = Ok (option_map fst (MeanShift_loop Resample fuel img (epsilon * epsilon) start 0)).
Proof.
  unfold MeanShift_rejects, MeanShift, THROW_IF. intros H.
  destruct (IsForged img); [|tauto]. simpl.
  destruct (N.eqb_spec (TensorElements img) (N.of_nat (Dimensionality img))); [|tauto].
  simpl.
  destruct (IsReal (DataType_of img)); [|tauto]. simpl.
  destruct (Nat.eqb_spec (List.length start) (Dimensionality img)); [|tauto]. simpl.
  destruct (epsilon <=? 0) eqn:E; [apply Rleb_true in E; tauto|].
  reflexivity.
Qed.

Lemma MeanShift_throws Resample (img : Image) (start : FloatArray) (epsilon : dfloat) :
  MeanShift_rejects img start epsilon ->
  exists e, forall fuel, MeanShift Resample fuel img start epsilon = Throw e.
Proof.
  unfold MeanShift_rejects, MeanShift, THROW_IF. intros H.
  destruct (IsForged img); simpl; [|eauto].
  destruct (N.eqb_spec (TensorElements img) (N.of_nat (Dimensionality img)));
    simpl; [|eauto].
  destruct (IsReal (DataType_of img)); simpl; [|eauto].
  destruct (Nat.eqb_spec (List.length start) (Dimensionality img)); simpl; [|eauto].
  destruct (epsilon <=? 0) eqn:E; [eauto|].
  apply Rleb_false in E.
  exfalso. destruct H as [H|[H|[H|[H|H]]]]; try discriminate; try contradiction; lra.
Qed.

(** C8: [MeanShift] throws exactly when the field is not forged, or its
    number of tensor elements is not its dimensionality, or its samples are
    not real, or the start has another length than the dimensionality, or
    [epsilon <= 0]; the error is there whatever the number of rounds allowed,
    none included; otherwise the call is the loop from the start
    coordinate. *)
Theorem MeanShift_error_conditions Resample (img : Image) (start : FloatArray)
  (epsilon : dfloat) :
  (forall fuel,
     (exists e, MeanShift Resample fuel img start epsilon = Throw e)
     <-> MeanShift_rejects img start epsilon)
  /\ (MeanShift_rejects img start epsilon ->
      exists e, MeanShift Resample 0 img start epsilon = Throw e)
  /\ (~ MeanShift_rejects img start epsilon ->
      forall fuel,
        MeanShift Resample fuel img start epsilon
        = Ok (option_map fst
                (MeanShift_loop Resample fuel img (epsilon * epsilon) start 0))).
Proof.
  assert (Hdec : MeanShift_rejects img start epsilon \/ ~ MeanShift_rejects img start epsilon).
  { unfold MeanShift_rejects.
    destruct (IsForged img); [|tauto].
    destruct (N.eq_dec (TensorElements img) (N.of_nat (Dimensionality img))); [|tauto].
    destruct (IsReal (DataType_of img)); [|tauto].
    destruct (Nat.eq_dec (List.length start) (Dimensionality img)); [|tauto].
    destruct (Rle_dec epsilon 0); [tauto|].
    right. intros [H|[H|[H|[H|H]]]]; try discriminate; contradiction. }
  split; [|split].
  - intros fuel; split.
    + intros [e He]. destruct Hdec as [H|H]; auto.
      rewrite MeanShift_accepts in He by assumption. discriminate.
    + intros H. destruct (MeanShift_throws Resample img start epsilon H) as [e He]; eauto.
  - intros H. destruct (MeanShift_throws Resample img start epsilon H) as [e He]; eauto.
  - intros H fuel. now apply MeanShift_accepts.
Qed.

(** C9: on a field whose interpolation is the zero vector everywhere, with
    a valid field, a start of the right length and [epsilon > 0], the loop
    of [MeanShift] calls the interpolation once and [MeanShift] returns the
    start coordinate. *)
Theorem MeanShift_zero_field Resample (fuel : nat) (img : Image) (start : FloatArray)
  (epsilon : dfloat) :
  IsForged img = true ->
  TensorElements img = N.of_nat (Dimensionality img) ->
  IsReal (DataType_of img) = true ->
  List.length start = Dimensionality img ->
  0 < epsilon ->
  (forall pt, Resample img pt = repeat 0 (Dimensionality img)) ->
  MeanShift_loop Resample (S fuel) img (epsilon * epsilon) start 0 = Some (start, 1%nat)
  /\ MeanShift Resample (S fuel) img start epsilon = Ok (Some start).
Proof.
  intros Hf Ht Hr Hlen Heps Hzero.
  assert (Hok : ~ MeanShift_rejects img start epsilon).
  { intros [H|[H|[H|[H|H]]]]; try congruence. lra. }
  assert (Hloop : MeanShift_loop Resample (S fuel) img (epsilon * epsilon) start 0
                  = Some (start, 1%nat)).
  { simpl. rewrite Hzero, norm_square_zero, array_add_zero by assumption.
    replace (0 >? epsilon * epsilon) with false; auto.
    symmetry; apply Rltb_false. nra. }
  split; auto.
  rewrite MeanShift_accepts by assumption. now rewrite Hloop.
Qed.

(** ** Bounds on the offsets *)

Lemma centroid_bound (t0 t1 t2 : R) :
  let b := std_min (std_min t0 t1) t2 in
  let m := (t0 - b) + (t1 - b) + (t2 - b) in
  m <> 0 -> Rabs (((t2 - b) - (t0 - b)) / m) <= 1.
Proof.
  intros b m Hm.
  assert (Hb0 : b <= t0).
  { unfold b. pose proof (std_min_le_left (std_min t0 t1) t2).
    pose proof (std_min_le_left t0 t1). lra. }
  assert (Hb1 : b <= t1).
  { unfold b. pose proof (std_min_le_left (std_min t0 t1) t2).
    pose proof (std_min_le_right t0 t1). lra. }
  assert (Hb2 : b <= t2) by (unfold b; apply std_min_le_right).
  assert (Hpos : 0 < m) by (unfold m in *; lra).
  assert (Hinv : 0 < / m) by now apply Rinv_0_lt_compat.
  apply Rabs_le. unfold Rdiv.
  assert (Hone : m * / m = 1) by (apply Rinv_r; lra).
  split.
  - apply Rmult_le_reg_r with m; auto.
    rewrite Rmult_assoc, (Rmult_comm (/ m) m), Hone. unfold m; lra.
  - apply Rmult_le_reg_r with m; auto.
    rewrite Rmult_assoc, (Rmult_comm (/ m) m), Hone. unfold m; lra.
Qed.

Lemma Rabs_offset_zero (c bound : R) : 0 <= bound -> Rabs (c - c) <= bound.
Proof. intros H. replace (c - c) with 0 by ring. now rewrite Rabs_R0. Qed.

Lemma Rabs_offset (c x bound : R) : Rabs x <= bound -> Rabs (c + x - c) <= bound.
Proof. intros H. now replace (c + x - c) with x by ring. Qed.

Lemma linear_axis_invariant (img : Image) (p : Z) (position : UnsignedArray)
  (invert : bool) (nd ii : nat) (out out' : SubpixelLocationResult) :
  (ii < nd)%nat ->
  linear_invariant position nd ii out ->
  linear_axis img p position invert ii out = Ok out' ->
  linear_invariant position nd (S ii) out'.
Proof.
  intros Hii [Hlen Hin] H. unfold linear_axis in H.
  set (s := if invert then map Ropp (line_samples img p ii) else line_samples img p ii) in H.
  assert (Hs : exists t0 t1 t2, s = [t0; t1; t2]).
  { unfold s, line_samples. destruct invert; simpl; eauto. }
  destruct Hs as (t0 & t1 & t2 & Es). rewrite Es in H. cbn [map nth] in H.
  set (pos := to_dfloat (nth ii position 0%N)) in *.
  assert (Hother : forall c jj, (jj < ii)%nat ->
            Rabs (nth jj (assign ii c (coordinates out)) 0
                  - to_dfloat (nth jj position 0%N)) <= 1).
  { intros c jj Hjj. rewrite nth_assign_other by lia. now apply Hin. }
  destruct (negb _) eqn:Em; injection H as <-; split; simpl;
    try (now rewrite !assign_length).
  - intros jj Hjj. simpl.
    destruct (Nat.eq_dec jj ii) as [->|Hne].
    + rewrite nth_assign_same by (rewrite assign_length; lia).
      rewrite nth_assign_same by lia. fold pos.
      apply Rabs_offset. apply centroid_bound.
      apply negb_true_iff, Reqb_false in Em. exact Em.
    + rewrite nth_assign_other by lia. apply Hother. lia.
  - intros jj Hjj. simpl.
    destruct (Nat.eq_dec jj ii) as [->|Hne].
    + rewrite nth_assign_same by lia. fold pos. apply Rabs_offset_zero; lra.
    + apply Hother. lia.
Qed.

Lemma SubpixelLocationInternal_linear_bound Solve (img : Image) (position : UnsignedArray)
  (invert : bool) (p : Z) :
  Pointer img position = Ok p ->
  exists res,
    SubpixelLocationInternal Solve img position LINEAR invert = Ok res
    /\ offset_within 1 position res (Dimensionality img).
Proof.
  intros Hp. unfold SubpixelLocationInternal. rewrite Hp; cbn [bind].
  set (out := mk_result _ _).
  destruct (for_loop_returns (linear_axis img p position invert)) with
    (count := Dimensionality img) (lo := 0%nat) (s := out) as (res & Hres).
  { intros ii s. destruct (linear_axis_returns img p position invert ii s) as (u & Hu & _).
    eauto. }
  exists res. split; auto.
  apply (for_loop_invariant _ (linear_invariant position (Dimensionality img))) in Hres.
  - apply Hres.
  - split; [apply repeat_length | intros jj Hjj; lia].
  - intros ii t t' Hii Hinv Hb. eapply linear_axis_invariant; eauto. lia.
Qed.

Lemma solve_2d_accepted (a0 a1 a2 a3 a4 a5 x y val : dfloat) :
  fit2_ok (solve_2d a0 a1 a2 a3 a4 a5 x y val) = true ->
  Rabs (fit2_x (solve_2d a0 a1 a2 a3 a4 a5 x y val)) <= 0.75
  /\ Rabs (fit2_y (solve_2d a0 a1 a2 a3 a4 a5 x y val)) <= 0.75.
Proof.
  unfold solve_2d. destruct (_ =? 0); cbn [fit2_ok fit2_x fit2_y]; try discriminate.
  destruct (_ || _) eqn:E; cbn [fit2_ok fit2_x fit2_y]; try discriminate. intros _.
  repeat (apply orb_false_iff in E; destruct E as [E ?]).
  repeat match goal with H : Rltb _ _ = false |- _ => apply Rltb_false in H end.
  split; apply Rabs_le; lra.
Qed.

Lemma quadratic_fit_3x3x3_accepted Solve (t : list dfloat) (x y z val : dfloat) :
  fit3_ok (quadratic_fit_3x3x3 Solve t x y z val) = true ->
  Rabs (fit3_x (quadratic_fit_3x3x3 Solve t x y z val)) <= 0.75
  /\ Rabs (fit3_y (quadratic_fit_3x3x3 Solve t x y z val)) <= 0.75
  /\ Rabs (fit3_z (quadratic_fit_3x3x3 Solve t x y z val)) <= 0.75.
Proof.
  unfold quadratic_fit_3x3x3.
  destruct (_ || _) eqn:E; cbn [fit3_ok fit3_x fit3_y fit3_z]; try discriminate. intros _.
  repeat (apply orb_false_iff in E; destruct E as [E ?]).
  repeat match goal with H : Rltb _ _ = false |- _ => apply Rltb_false in H end.
  repeat split; apply Rabs_le; lra.
Qed.

Lemma joint_fit_bound Solve (img : Image) (p : Z) (position : UnsignedArray)
  (method : SubpixelExtremumMethod) (value0 : dfloat) (out : SubpixelLocationResult)
  (val : dfloat) :
  joint_fit Solve img p position method
    (mk_result (repeat 0 (Dimensionality img)) value0) = Ok (out, val) ->
  offset_within 0.75 position out (Dimensionality img).
Proof.
  unfold joint_fit. intros H.
  destruct (Dimensionality img) as [|[|[|[|n]]]]; try discriminate;
    apply bind_Ok_inv in H as (t & _ & H).
  - destruct (fit2_ok _) eqn:Eok; injection H as <- _.
    + apply solve_2d_accepted in Eok as [Hx Hy].
      intros [|[|jj]] Hjj; try lia; simpl; now apply Rabs_offset.
    + intros [|[|jj]] Hjj; try lia; simpl; apply Rabs_offset_zero; lra.
  - destruct (fit3_ok _) eqn:Eok; injection H as <- _.
    + apply quadratic_fit_3x3x3_accepted in Eok as (Hx & Hy & Hz).
      intros [|[|[|jj]]] Hjj; try lia; simpl; now apply Rabs_offset.
    + intros [|[|[|jj]]] Hjj; try lia; simpl; apply Rabs_offset_zero; lra.
Qed.

Lemma SubpixelLocationInternal_joint_bound Solve (img : Image) (position : UnsignedArray)
  (method : SubpixelExtremumMethod) (invert : bool) (res : SubpixelLocationResult) :
  is_joint method = true ->
  SubpixelLocationInternal Solve img position method invert = Ok res ->
  offset_within 0.75 position res (Dimensionality img).
Proof.
  intros Hj H. unfold SubpixelLocationInternal in H.
  apply bind_Ok_inv in H as (p & _ & H).
  destruct method; try discriminate;
    apply bind_Ok_inv in H as ([out val] & Hfit & H); injection H as <-;
    apply joint_fit_bound in Hfit; exact Hfit.
Qed.

(** The separable parabolic fit on the samples 0, 1, 1.9 of a line: the
    offset is 9.5. *)
Lemma separable_parabolic_offset Solve :
  SubpixelLocationInternal Solve ramp_5 [2]%N PARABOLIC_SEPARABLE false
  = Ok (mk_result [11.5] 5.5125).
Proof.
  evaluate. cbv [coordinates value assign nth]. Rdecide.
  apply f_equal. apply f_equal2; [apply f_equal2; [field | reflexivity] | field].
Qed.

(** The separable Gaussian fit on the samples 1, e, e^1.9: the logarithms
    are 0, 1, 1.9 and the offset is 9.5 again. *)
Lemma separable_gaussian_offset Solve :
  exists v,
    SubpixelLocationInternal Solve gaussian_ramp_3 [1]%N GAUSSIAN_SEPARABLE false
    = Ok (mk_result [10.5] v).
Proof.
  unfold SubpixelLocationInternal.
  change (Pointer gaussian_ramp_3 [1]%N) with (@Ok Z 1%Z).
  change (Dimensionality gaussian_ramp_3) with 1%nat.
  cbn [bind for_loop]. unfold separable_axis.
  change (line_samples gaussian_ramp_3 1 0) with [1; exp 1; exp 1.9].
  cbn [nth].
  replace (exp 1 <? 0) with false
    by (symmetry; apply Rltb_false; left; apply exp_pos).
  cbn [log_transform]. unfold std_log.
  replace (0 <? 1) with true by (symmetry; apply Rltb_true; lra).
  replace (0 <? exp 1) with true by (symmetry; apply Rltb_true; apply exp_pos).
  replace (0 <? exp 1.9) with true by (symmetry; apply Rltb_true; apply exp_pos).
  rewrite ln_1, !ln_exp. cbn [bind nth]. Rdecide. cbn [negb bind].
  eexists. apply f_equal. unfold set_value, set_coordinate. cbn [coordinates value].
  apply f_equal2; [|reflexivity].
  cbn [repeat assign nth]. apply f_equal2; [|reflexivity].
  change (to_dfloat 1%N) with 1.
  replace (2 * (0 - 2 * 1 + 1.9)) with (-0.2) by lra. lra.
Qed.


(** ** The properties on concrete inputs *)

Lemma det3_opp (b : list dfloat) : det3 (map Ropp b) = - det3 b.
Proof. unfold det3. rewrite !nth_map_Ropp. ring. Qed.

Lemma replace_column_opp (b c : list dfloat) (k : nat) :
  replace_column (map Ropp b) (map Ropp c) k = map Ropp (replace_column b c k).
Proof.
  unfold replace_column. rewrite map_map. apply map_ext. intros i.
  destruct (Nat.eqb _ _); now rewrite nth_map_Ropp.
Qed.

Lemma Solve_cramer_even : Solve_even Solve_cramer.
Proof.
  intros A b. unfold Solve_cramer.
  rewrite (Reqb_opp (det3 (map Ropp A)) (det3 A)) by apply det3_opp.
  destruct (det3 A =? 0) eqn:E; auto.
  apply Reqb_false in E.
  apply map_ext. intros k. rewrite replace_column_opp, !det3_opp. field. exact E.
Qed.

Lemma valid_image_of (sizes : UnsignedArray) (samples : list dfloat) :
  sizes <> [] ->
  Forall (fun s => (s < 2 ^ 64)%N) sizes ->
  valid_image (image_of sizes samples).
Proof.
  intros Hne Hall. constructor; try reflexivity.
  - unfold Dimensionality; simpl. destruct sizes; [contradiction | simpl; lia].
  - intros ii. unfold Size; simpl.
    destruct (Nat.lt_ge_cases ii (List.length sizes)) as [Hlt | Hge].
    + rewrite Forall_forall in Hall. apply Hall. now apply nth_In.
    + rewrite nth_overflow by assumption. reflexivity.
Qed.

Lemma valid_flat_3x3 : valid_image flat_3x3.
Proof. apply valid_image_of; [discriminate | repeat constructor]. Qed.

Lemma valid_paraboloid_3x3 : valid_image paraboloid_3x3.
Proof. apply valid_image_of; [discriminate | repeat constructor]. Qed.

Lemma interior_3x3_centre (samples : list dfloat) :
  interior (image_of [3; 3]%N samples) [1; 1]%N.
Proof.
  intros [|[|ii]] Hii; try (cbv; split; [discriminate | reflexivity]).
  exfalso. change (S (S ii) < 2)%nat in Hii. lia.
Qed.

Lemma in_bounds_3x3_edge (samples : list dfloat) :
  in_bounds (image_of [3; 3]%N samples) [0; 1]%N.
Proof.
  intros [|[|ii]] Hii; try reflexivity.
  exfalso. change (S (S ii) < 2)%nat in Hii. lia.
Qed.

Lemma SubpixelLocation_border_witness :
  exists raw,
    At flat_3x3 [0; 1]%N = Ok raw /\
    border_loop flat_3x3 [0; 1]%N 0 (Dimensionality flat_3x3)
      = Some (Ok (mk_result (map to_dfloat [0; 1]%N) raw)) /\
    SubpixelLocation Solve_cramer flat_3x3 [0; 1]%N S_MINIMUM S_GAUSSIAN
      = Ok (mk_result (map to_dfloat [0; 1]%N) raw).
Proof.
  apply (SubpixelLocation_border Solve_cramer flat_3x3 [0; 1]%N S_MINIMUM S_GAUSSIAN 0).
  - exact valid_flat_3x3.
  - reflexivity.
  - apply in_bounds_3x3_edge.
  - apply Nat.lt_0_succ.
  - left; reflexivity.
Defined.



Lemma unsupported_configuration_throws_witness :
  exists e, SubpixelLocation Solve_cramer flat_3x3 [1; 1]%N S_MAXIMUM "nearest" = Throw e.
Proof.
  apply (unsupported_configuration_throws Solve_cramer flat_3x3 [1; 1]%N S_MAXIMUM "nearest").
  - exact valid_flat_3x3.
  - reflexivity.
  - apply interior_3x3_centre.
  - left; reflexivity.
Defined.

Lemma one_dimensional_joint_is_separable_witness :
  SubpixelLocation Solve_cramer line_5 [2]%N S_MAXIMUM S_PARABOLIC
  = SubpixelLocation Solve_cramer line_5 [2]%N S_MAXIMUM S_PARABOLIC_SEPARABLE
  /\ SubpixelLocation Solve_cramer line_5 [2]%N S_MAXIMUM S_GAUSSIAN
     = SubpixelLocation Solve_cramer line_5 [2]%N S_MAXIMUM S_GAUSSIAN_SEPARABLE.
Proof.
  apply (one_dimensional_joint_is_separable Solve_cramer line_5 [2]%N S_MAXIMUM).
  reflexivity.
Defined.

(** On the line 0, 1, 4, 2, 1 the candidate 2 is refined to 2.1, with value
    4.025, under either name of the parabolic method. *)
Lemma one_dimensional_parabolic_result :
  SubpixelLocation Solve_cramer line_5 [2]%N S_MAXIMUM S_PARABOLIC
  = Ok (mk_result [2.1] 4.025).
Proof.
  evaluate. cbv [coordinates value assign nth]. Rdecide.
  apply f_equal. apply f_equal2; [apply f_equal2; [field | reflexivity] | field].
Qed.

(** A candidate one sample away from the first sample is not a border
    candidate: on the line 0, 1, 4, 2, 1 the candidate 1 goes through the
    parabolic fit, which moves it to 0. *)
Lemma candidate_next_to_border_is_refined :
  SubpixelLocation Solve_cramer line_5 [1]%N S_MAXIMUM S_PARABOLIC_SEPARABLE
  = Ok (mk_result [0] 1).
Proof.
  evaluate. cbv [coordinates value assign nth]. Rdecide.
  apply f_equal. apply f_equal2; [apply f_equal2; [field | reflexivity] | reflexivity].
Qed.

Lemma field_4x4_accepted : ~ MeanShift_rejects field_4x4 [1.5; 2] 0.01.
Proof.
  intros [H|[H|[H|[H|H]]]]; try discriminate H.
  - apply H; reflexivity.
  - apply H; reflexivity.
  - lra.
Qed.

Lemma MeanShift_error_conditions_witness :
  (exists e, MeanShift zero_field 0 field_4x4 [1.5; 2] 0 = Throw e)
  /\ MeanShift zero_field 0 field_4x4 [1.5; 2] 0.01
     = Ok (option_map fst (MeanShift_loop zero_field 0 field_4x4 (0.01 * 0.01) [1.5; 2] 0)).
Proof.
  split.
  - apply (proj1 (proj2 (MeanShift_error_conditions zero_field field_4x4 [1.5; 2] 0))).
    do 4 right. apply Rle_refl.
  - apply (proj2 (proj2 (MeanShift_error_conditions zero_field field_4x4 [1.5; 2] 0.01))).
    exact field_4x4_accepted.
Defined.

Lemma MeanShift_zero_field_witness :
  MeanShift_loop zero_field 1 field_4x4 (0.01 * 0.01) [1.5; 2] 0 = Some ([1.5; 2], 1%nat)
  /\ MeanShift zero_field 1 field_4x4 [1.5; 2] 0.01 = Ok (Some [1.5; 2]).
Proof.
  apply (MeanShift_zero_field zero_field 0 field_4x4 [1.5; 2] 0.01).
  - reflexivity.
  - reflexivity.
  - reflexivity.
  - reflexivity.
  - lra.
  - intros pt; reflexivity.
Defined.


(** ** Further properties of [SubpixelLocation] *)

Lemma coords_inside_inv (img : Image) :
  forall coords ii,
    coords_inside img coords ii = true ->
    forall k, (k < List.length coords)%nat -> (nth k coords 0 < Size img (ii + k))%N.
Proof.
  induction coords as [|c r IH]; intros ii H k Hk; simpl in *; [lia|].
  apply andb_true_iff in H as [Hc Hr]. apply N.ltb_lt in Hc.
  destruct k as [|k].
  - now rewrite Nat.add_0_r.
  - replace (ii + S k)%nat with (S ii + k)%nat by lia. apply IH; auto. lia.
Qed.

Lemma Pointer_Ok_inv (img : Image) (position : UnsignedArray) (p : Z) :
  Pointer img position = Ok p ->
  List.length position = Dimensionality img /\ in_bounds img position
  /\ p = offset_sum img position 0.
Proof.
  unfold Pointer, Offset, THROW_IF. intros H.
  destruct (Nat.eqb_spec (List.length position) (Dimensionality img)) as [Hlen|];
    simpl in H; [|discriminate].
  destruct (coords_inside img position 0) eqn:Hin; simpl in H; [|discriminate].
  injection H as <-. repeat split; auto.
  intros ii Hii. apply (coords_inside_inv img position 0 Hin ii). now rewrite Hlen.
Qed.

Lemma At_Ok_inv (img : Image) (position : UnsignedArray) (v : dfloat) :
  At img position = Ok v ->
  List.length position = Dimensionality img /\ in_bounds img position.
Proof.
  unfold At. intros H. apply bind_Ok_inv in H as (p & Hp & _).
  apply Pointer_Ok_inv in Hp. tauto.
Qed.

(** The border loop either runs to its end or leaves with what
    [in.At< dfloat >( position )] gives, or with the out-of-bounds error. *)
Lemma border_loop_cases (img : Image) (position : UnsignedArray) :
  forall count lo,
    border_loop img position lo count = None
    \/ border_loop img position lo count
       = Some (v <- At img position ;; Ok (mk_result (map to_dfloat position) v))
    \/ border_loop img position lo count
       = Some (Throw (OTHER_ERROR "Initial coordinates out of image bounds")).
Proof.
  induction count as [|c IH]; intros lo; simpl; auto.
  destruct (_ || _); auto.
  unfold THROW_IF. destruct (N.leb _ _); auto.
Qed.

Lemma border_loop_in_bounds (img : Image) (position : UnsignedArray) :
  forall count lo,
    (forall ii, (lo <= ii < lo + count)%nat -> (nth ii position 0 < Size img ii)%N) ->
    border_loop img position lo count = None
    \/ border_loop img position lo count
       = Some (v <- At img position ;; Ok (mk_result (map to_dfloat position) v)).
Proof.
  induction count as [|c IH]; intros lo H; simpl; auto.
  destruct (_ || _).
  - right. unfold THROW_IF.
    replace (N.leb (Size img lo) (nth lo position 0%N)) with false; auto.
    symmetry; apply N.leb_gt. apply H; lia.
  - apply IH. intros ii Hii; apply H; lia.
Qed.

(** The loop of the [INTEGER] case writes the candidate's coordinates. *)
Lemma integer_loop (position : UnsignedArray) (nd : nat) (v : dfloat) :
  List.length position = nd ->
  for_loop (integer_axis position) 0 nd (mk_result (repeat 0 nd) v)
  = Ok (mk_result (map to_dfloat position) v).
Proof.
  intros Hlen.
  destruct (for_loop_returns (integer_axis position)) with
    (count := nd) (lo := 0%nat) (s := mk_result (repeat 0 nd) v) as (res & Hres).
  { intros ii s; unfold integer_axis; eauto. }
  rewrite Hres. f_equal.
  pose (Inv := fun (k : nat) (s : SubpixelLocationResult) =>
                 value s = v /\ List.length (coordinates s) = nd /\
                 forall j, (j < k)%nat ->
                           nth j (coordinates s) 0 = to_dfloat (nth j position 0%N)).
  apply (for_loop_invariant _ Inv) in Hres.
  - destruct Hres as (Hv & Hl & Hc). destruct res as [c v']; simpl in *. subst v'.
    f_equal. apply (nth_ext _ _ 0 0).
    + now rewrite length_map, Hlen.
    + intros j Hj. rewrite Hc by lia.
      change 0 with (to_dfloat 0%N) at 1. now rewrite map_nth.
  - repeat split; simpl; [apply repeat_length | intros j Hj; lia].
  - intros ii t t' Hii (Hv & Hl & Hc) Hb. unfold integer_axis in Hb. injection Hb as <-.
    repeat split; simpl; auto.
    + now rewrite assign_length.
    + intros j Hj. destruct (Nat.eq_dec j ii) as [->|Hne].
      * apply nth_assign_same. lia.
      * rewrite nth_assign_other by lia. apply Hc. lia.
Qed.

Lemma ParseMethod_integer (nDims : nat) : ParseMethod S_INTEGER nDims = Ok INTEGER.
Proof. unfold ParseMethod; simpl. destruct (Nat.eqb nDims 1); reflexivity. Qed.

(** X1: the method ["integer"] returns the candidate itself: its own coordinates
    and the sample there, on the border and away from it. *)
Theorem SubpixelLocation_integer Solve (img : Image) (position : UnsignedArray)
  (polarity : string) (invert : bool) :
  valid_image img ->
  List.length position = Dimensionality img ->
  in_bounds img position ->
  BooleanFromString polarity S_MINIMUM S_MAXIMUM = Ok invert ->
  SubpixelLocation Solve img position polarity S_INTEGER
  = Ok (mk_result (map to_dfloat position) (Data img (offset_sum img position 0))).
Proof.
  intros Hv Hlen Hin Hpol.
  rewrite SubpixelLocation_checks by assumption.
  destruct (border_loop_in_bounds img position (Dimensionality img) 0) as [-> | ->].
  - intros ii Hii. apply Hin. lia.
  - rewrite Hpol, ParseMethod_integer; cbn [bind].
    unfold SubpixelLocationInternal. rewrite Pointer_in_bounds by assumption. cbn [bind].
    now apply integer_loop.
  - now rewrite At_in_bounds by assumption.
Qed.

(** X2: the method ["linear"] always returns, and the value it reports is the
    sample at the candidate, never an interpolated one. *)
Theorem SubpixelLocation_linear_value Solve (img : Image) (position : UnsignedArray)
  (polarity : string) (invert : bool) :
  valid_image img ->
  List.length position = Dimensionality img ->
  in_bounds img position ->
  BooleanFromString polarity S_MINIMUM S_MAXIMUM = Ok invert ->
  exists res,
    SubpixelLocation Solve img position polarity S_LINEAR = Ok res
    /\ value res = Data img (offset_sum img position 0).
Proof.
  intros Hv Hlen Hin Hpol.
  rewrite SubpixelLocation_checks by assumption.
  destruct (border_loop_in_bounds img position (Dimensionality img) 0) as [-> | ->].
  - intros ii Hii. apply Hin. lia.
  - rewrite Hpol. replace (ParseMethod S_LINEAR (Dimensionality img)) with (@Ok _ LINEAR)
      by (unfold ParseMethod; simpl; destruct (Nat.eqb _ 1); reflexivity).
    cbn [bind]. unfold SubpixelLocationInternal.
    rewrite Pointer_in_bounds by assumption. cbn [bind].
    set (p := offset_sum img position 0). set (out := mk_result _ _).
    destruct (for_loop_returns (linear_axis img p position invert)) with
      (count := Dimensionality img) (lo := 0%nat) (s := out) as (res & Hres).
    { intros ii s. destruct (linear_axis_returns img p position invert ii s) as (u & Hu & _).
      eauto. }
    exists res. split; auto.
    apply (for_loop_invariant _ (fun _ s => value s = Data img p)) in Hres; auto.
    intros ii t t' _ Ht Hb.
    destruct (linear_axis_returns img p position invert ii t) as (u & Hu & Hval).
    rewrite Hu in Hb. injection Hb as <-. now rewrite Hval.
  - rewrite At_in_bounds by assumption. cbn [bind]. eauto.
Qed.

(** X3: a candidate that leaves the image on some axis, every earlier axis being
    away from the border, is refused with the error of its own. *)
Theorem SubpixelLocation_out_of_bounds Solve (img : Image) (position : UnsignedArray)
  (polarity s_method : string) (bb : nat) :
  valid_image img ->
  List.length position = Dimensionality img ->
  (bb < Dimensionality img)%nat ->
  (forall ii, (ii < bb)%nat ->
              (1 <= nth ii position 0)%N /\ (nth ii position 0 + 1 < Size img ii)%N) ->
  (1 <= Size img bb <= nth bb position 0)%N ->
  SubpixelLocation Solve img position polarity s_method
  = Throw (OTHER_ERROR "Initial coordinates out of image bounds").
Proof.
  intros Hv Hlen Hbb Hbefore Hout.
  rewrite SubpixelLocation_checks by assumption.
  assert (Hloop : forall count lo, (lo <= bb < lo + count)%nat ->
            border_loop img position lo count
            = Some (Throw (OTHER_ERROR "Initial coordinates out of image bounds"))).
  { induction count as [|c IH]; intros lo Hlo; [lia|]. simpl.
    destruct (Nat.eq_dec lo bb) as [->|Hne].
    - rewrite uint_sub_1 by (split; [lia | apply (valid_sizes _ Hv)]).
      replace (N.leb (Size img bb - 1) (nth bb position 0%N)) with true
        by (symmetry; apply N.leb_le; lia).
      rewrite orb_true_r. unfold THROW_IF.
      replace (N.leb (Size img bb) (nth bb position 0%N)) with true
        by (symmetry; apply N.leb_le; lia).
      reflexivity.
    - destruct (Hbefore lo ltac:(lia)) as [H1 H2].
      rewrite uint_sub_1 by (split; [lia | apply (valid_sizes _ Hv)]).
      replace (N.ltb (nth lo position 0%N) 1) with false by (symmetry; apply N.ltb_ge; lia).
      replace (N.leb (Size img lo - 1) (nth lo position 0%N)) with false
        by (symmetry; apply N.leb_gt; lia).
      simpl. apply IH. lia. }
  rewrite Hloop by lia. reflexivity.
Qed.

Lemma linear_axis_length (img : Image) (p : Z) (position : UnsignedArray) (invert : bool)
  (ii : nat) (out out' : SubpixelLocationResult) :
  linear_axis img p position invert ii out = Ok out' ->
  List.length (coordinates out') = List.length (coordinates out).
Proof.
  unfold linear_axis. destruct (negb _); intros H; injection H as <-; simpl;
    now rewrite !assign_length.
Qed.

Lemma separable_axis_length (img : Image) (p : Z) (position : UnsignedArray)
  (method : SubpixelExtremumMethod) (invert : bool) (ii : nat)
  (out out' : SubpixelLocationResult) :
  separable_axis img p position method invert ii out = Ok out' ->
  List.length (coordinates out') = List.length (coordinates out).
Proof.
  unfold separable_axis. intros H. apply bind_Ok_inv in H as (t & _ & H).
  destruct (negb _); injection H as <-; simpl; now rewrite !assign_length.
Qed.

Lemma joint_fit_length Solve (img : Image) (p : Z) (position : UnsignedArray)
  (method : SubpixelExtremumMethod) (out out' : SubpixelLocationResult) (val : dfloat) :
  joint_fit Solve img p position method out = Ok (out', val) ->
  List.length (coordinates out') = List.length (coordinates out).
Proof.
  unfold joint_fit. intros H.
  destruct (Dimensionality img) as [|[|[|[|n]]]]; try discriminate;
    apply bind_Ok_inv in H as (t & _ & H);
    match type of H with (if ?c then _ else _) = _ => destruct c end;
    injection H as <- _; unfold set_coordinate; cbn [coordinates];
    now rewrite !assign_length.
Qed.

Lemma SubpixelLocationInternal_length Solve (img : Image) (position : UnsignedArray)
  (method : SubpixelExtremumMethod) (invert : bool) (res : SubpixelLocationResult) :
  SubpixelLocationInternal Solve img position method invert = Ok res ->
  List.length (coordinates res) = Dimensionality img.
Proof.
  unfold SubpixelLocationInternal. intros H.
  apply bind_Ok_inv in H as (p & _ & H).
  set (out := mk_result _ _) in H.
  assert (H0 : List.length (coordinates out) = Dimensionality img) by apply repeat_length.
  pose (Inv := fun (_ : nat) (s : SubpixelLocationResult) =>
                 List.length (coordinates s) = Dimensionality img).
  destruct method.
  - apply (for_loop_invariant _ Inv _ _ _ _ H0) in H; auto.
    intros ii t t' _ Ht Hb. unfold Inv in *. apply linear_axis_length in Hb. congruence.
  - apply (for_loop_invariant _ Inv _ _ _ _ H0) in H; auto.
    intros ii t t' _ Ht Hb. unfold Inv in *. apply separable_axis_length in Hb. congruence.
  - apply (for_loop_invariant _ Inv _ _ _ _ H0) in H; auto.
    intros ii t t' _ Ht Hb. unfold Inv in *. apply separable_axis_length in Hb. congruence.
  - apply bind_Ok_inv in H as ([out' val] & Hj & H). injection H as <-.
    apply joint_fit_length in Hj. simpl. congruence.
  - apply bind_Ok_inv in H as ([out' val] & Hj & H). injection H as <-.
    apply joint_fit_length in Hj. simpl. congruence.
  - apply (for_loop_invariant _ Inv _ _ _ _ H0) in H; auto.
    intros ii t t' _ Ht Hb. unfold Inv, integer_axis in *. injection Hb as <-. simpl.
    now rewrite assign_length.
Qed.

(** X4: [SubpixelLocation] returns a result only for a forged, scalar, real
    image of at least one dimension and a candidate inside it, and the result
    has one coordinate per dimension. *)
Theorem SubpixelLocation_result_shape Solve (img : Image) (position : UnsignedArray)
  (polarity s_method : string) (res : SubpixelLocationResult) :
  SubpixelLocation Solve img position polarity s_method = Ok res ->
  IsForged img = true /\ IsScalar img = true /\ IsReal (DataType_of img) = true
  /\ (1 <= Dimensionality img)%nat
  /\ List.length position = Dimensionality img
  /\ in_bounds img position
  /\ List.length (coordinates res) = Dimensionality img.
Proof.
  unfold SubpixelLocation, THROW_IF. intros H.
  destruct (IsForged img); simpl in H; [|discriminate].
  destruct (IsScalar img); simpl in H; [|discriminate].
  destruct (IsReal (DataType_of img)); simpl in H; [|discriminate].
  destruct (Nat.ltb_spec (Dimensionality img) 1); simpl in H; [discriminate|].
  destruct (Nat.eqb_spec (List.length position) (Dimensionality img)) as [Hlen|];
    simpl in H; [|discriminate].
  do 3 (split; [reflexivity|]). split; [lia|]. split; [exact Hlen|].
  destruct (border_loop_cases img position (Dimensionality img) 0) as [E | [E | E]];
    rewrite E in H.
  - apply bind_Ok_inv in H as (invert & _ & H).
    apply bind_Ok_inv in H as (method & _ & H).
    split.
    + unfold SubpixelLocationInternal in H. apply bind_Ok_inv in H as (p & Hp & _).
      now apply Pointer_Ok_inv in Hp.
    + now apply SubpixelLocationInternal_length in H.
  - apply bind_Ok_inv in H as (v & Hv & H). injection H as <-.
    split.
    + now apply At_Ok_inv in Hv.
    + simpl. now rewrite length_map.
  - discriminate.
Qed.

(** ** Method names *)

Lemma ParseMethod_recognized (s : string) (nDims : nat) :
  recognized_method s = true ->
  exists method,
    ParseMethod s nDims = Ok method
    /\ (nDims = 1%nat -> is_joint method = false).
Proof.
  unfold recognized_method, ParseMethod; simpl. intros H.
  repeat (apply orb_true_iff in H; destruct H as [H | H];
          [apply String.eqb_eq in H; subst s; simpl;
           destruct (Nat.eqb_spec nDims 1); eexists; split; try reflexivity;
           try (intros; reflexivity); try contradiction | ]).
  discriminate.
Qed.

(** X5: [ParseMethod] accepts the six method names and nothing else; on a
    one-dimensional image it never selects a joint fit; on any other
    dimensionality different names select different methods. *)
Theorem ParseMethod_names (s : string) (nDims : nat) :
  ((exists method, ParseMethod s nDims = Ok method) <-> recognized_method s = true)
  /\ (forall method, ParseMethod s 1 = Ok method -> is_joint method = false)
  /\ (forall s' method, nDims <> 1%nat ->
        ParseMethod s nDims = Ok method -> ParseMethod s' nDims = Ok method -> s = s').
Proof.
  split; [|split].
  - split.
    + intros [method H]. destruct (recognized_method s) eqn:E; auto.
      rewrite ParseMethod_unrecognized in H by assumption. discriminate.
    + intros H. destruct (ParseMethod_recognized s nDims H) as (method & Hm & _). eauto.
  - intros method H. destruct (recognized_method s) eqn:E.
    + destruct (ParseMethod_recognized s 1 E) as (m & Hm & Hj).
      rewrite Hm in H. injection H as <-. now apply Hj.
    + rewrite ParseMethod_unrecognized in H by assumption. discriminate.
  - intros s' method Hd. apply Nat.eqb_neq in Hd.
    unfold ParseMethod. rewrite Hd.
    repeat match goal with
      | |- context [String.eqb ?a ?b] =>
          destruct (String.eqb_spec a b); [subst|]; cbn [bind]
      end;
      intros H1 H2; try discriminate; try congruence.
Qed.

(** X6: on an image of one, two or three dimensions, a candidate inside it, a
    valid polarity and one of the six method names, [SubpixelLocation] throws
    nothing: it returns a result, unless a Gaussian fit leaves the reals. *)
Theorem SubpixelLocation_no_throw Solve (img : Image) (position : UnsignedArray)
  (polarity s_method : string) (invert : bool) :
  valid_image img ->
  (Dimensionality img <= 3)%nat ->
  List.length position = Dimensionality img ->
  in_bounds img position ->
  BooleanFromString polarity S_MINIMUM S_MAXIMUM = Ok invert ->
  recognized_method s_method = true ->
  (exists res, SubpixelLocation Solve img position polarity s_method = Ok res)
  \/ SubpixelLocation Solve img position polarity s_method = NonReal.
Proof.
  intros Hv Hd Hlen Hin Hpol Hrec.
  rewrite SubpixelLocation_checks by assumption.
  destruct (border_loop_in_bounds img position (Dimensionality img) 0) as [-> | ->].
  - intros ii Hii. apply Hin. lia.
  - rewrite Hpol; cbn [bind].
    destruct (ParseMethod_recognized s_method (Dimensionality img) Hrec)
      as (method & -> & Hj). cbn [bind].
    destruct (SubpixelLocationInternal_outcome Solve img position method invert
                (offset_sum img position 0)) as [Hres | [_ Hnr]]; auto.
    + now apply Pointer_in_bounds.
    + intros Hjoint. pose proof (valid_dims _ Hv).
      destruct (Nat.eq_dec (Dimensionality img) 1) as [H1|H1].
      * rewrite (Hj H1) in Hjoint. discriminate.
      * lia.
  - rewrite At_in_bounds by assumption. cbn [bind]. eauto.
Qed.

(** ** The weight tables are the least-squares projections *)

Lemma sum_of_squares_nonneg (l : list R) :
  0 <= fold_right Rplus 0 (map (fun x => x * x) l).
Proof.
  induction l as [|x l IH]; simpl; [lra|]. pose proof (Rle_0_sqr x) as H.
  unfold Rsqr in H. lra.
Qed.

(** X7: for every stencil the coefficients that [quadratic_fit_3x3] computes
    from its table have the least squared error among all quadratic models. *)
Theorem least_squares_3x3_optimal (t a' : list dfloat) :
  List.length t = 9%nat ->
  squared_error_2d (least_squares w_3x3 t 9 6 0 6) t <= squared_error_2d a' t.
Proof.
  intros Hlen.
  destruct t as [|t0 [|t1 [|t2 [|t3 [|t4 [|t5 [|t6 [|t7 [|t8 [|]]]]]]]]]];
    try discriminate.
  rewrite least_squares_3x3.
  set (d := map (fun pt : R * R * R =>
                   let '((x, y), s) := pt in
                   quadratic_2d a' x y
                   - quadratic_2d (least_squares w_3x3 [t0; t1; t2; t3; t4; t5; t6; t7; t8] 9 6 0 6) x y)
                (combine stencil_points_2d [t0; t1; t2; t3; t4; t5; t6; t7; t8])).
  pose proof (sum_of_squares_nonneg d) as Hd.
  match goal with |- ?l <= ?r =>
    replace r with (l + fold_right Rplus 0 (map (fun x => x * x) d)); [lra|] end.
  unfold d. rewrite least_squares_3x3.
  cbv [squared_error_2d stencil_points_2d flat_map map app combine fold_right
       quadratic_2d nth].
  generalize (nth 0 a' 0) (nth 1 a' 0) (nth 2 a' 0) (nth 3 a' 0) (nth 4 a' 0) (nth 5 a' 0).
  intros b0 b1 b2 b3 b4 b5. field.
Qed.

(** The residuals of the coefficients of [quadratic_fit_3x3x3] are
    orthogonal to each of the ten monomials: the normal equations. *)
Lemma normal_equations_3x3x3 (t : list dfloat) (k : nat) :
  List.length t = 27%nat -> (k < 10)%nat ->
  normal_sum_3d k (least_squares w_3x3x3 t 27 18 0 10) t = 0.
Proof.
  intros Hlen Hk.
  do 27 (destruct t as [|? t]; [discriminate|]). destruct t; [|discriminate].
  do 10 (destruct k as [|k];
         [cbv [normal_sum_3d basis_3d quadratic_3d stencil_points_3d flat_map map app
               combine fold_right least_squares accumulate w_3x3x3 nth]; lra|]).
  lia.
Qed.

(** The squared error of any model exceeds that of a model by the squared
    differences of the two, up to the normal sums. *)
Lemma squared_error_3d_split (a0 a1 a2 a3 a4 a5 a6 a7 a8 a9 b0 b1 b2 b3 b4 b5 b6 b7 b8 b9 : R)
  (t : list dfloat) :
  let a := [a0; a1; a2; a3; a4; a5; a6; a7; a8; a9] in
  let b := [b0; b1; b2; b3; b4; b5; b6; b7; b8; b9] in
  squared_error_3d b t
  = squared_error_3d a t
    + fold_right Rplus 0
        (map (fun x => x * x)
           (map (fun pt : R * R * R * R =>
                   let '((x, y, z), s) := pt in
                   quadratic_3d b x y z - quadratic_3d a x y z)
                (combine stencil_points_3d t)))
    + 2 * ((b0 - a0) * normal_sum_3d 0 a t + (b1 - a1) * normal_sum_3d 1 a t
           + (b2 - a2) * normal_sum_3d 2 a t + (b3 - a3) * normal_sum_3d 3 a t
           + (b4 - a4) * normal_sum_3d 4 a t + (b5 - a5) * normal_sum_3d 5 a t
           + (b6 - a6) * normal_sum_3d 6 a t + (b7 - a7) * normal_sum_3d 7 a t
           + (b8 - a8) * normal_sum_3d 8 a t + (b9 - a9) * normal_sum_3d 9 a t).
Proof.
  intros a b. unfold squared_error_3d, normal_sum_3d.
  induction (combine stencil_points_3d t) as [|[[[x y] z] s] l IH].
  - simpl. ring.
  - cbn [map fold_right]. rewrite IH.
    unfold a, b, quadratic_3d, basis_3d. cbn [nth]. ring.
Qed.

Lemma least_squares_3x3x3_length (t : list dfloat) :
  exists a0 a1 a2 a3 a4 a5 a6 a7 a8 a9,
    least_squares w_3x3x3 t 27 18 0 10 = [a0; a1; a2; a3; a4; a5; a6; a7; a8; a9].
Proof.
  cbn [least_squares].
  repeat match goal with
    | |- context [accumulate ?w ?u ?k ?j ?c ?x] =>
        let acc := fresh "acc" in let kk := fresh "kk" in
        destruct (accumulate w u k j c x) as [acc kk]
    end.
  repeat eexists.
Qed.

(** X8: for every stencil the coefficients that [quadratic_fit_3x3x3]
    computes from its table have the least squared error among all quadratic
    models. *)
Theorem least_squares_3x3x3_optimal (t a' : list dfloat) :
  List.length t = 27%nat ->
  squared_error_3d (least_squares w_3x3x3 t 27 18 0 10) t <= squared_error_3d a' t.
Proof.
  intros Hlen.
  pose proof (fun k => normal_equations_3x3x3 t k Hlen) as Hn.
  destruct (least_squares_3x3x3_length t)
    as (a0 & a1 & a2 & a3 & a4 & a5 & a6 & a7 & a8 & a9 & Ea).
  rewrite Ea in *.
  replace (squared_error_3d a' t)
    with (squared_error_3d
            [nth 0 a' 0; nth 1 a' 0; nth 2 a' 0; nth 3 a' 0; nth 4 a' 0;
             nth 5 a' 0; nth 6 a' 0; nth 7 a' 0; nth 8 a' 0; nth 9 a' 0] t)
    by reflexivity.
  rewrite (squared_error_3d_split a0 a1 a2 a3 a4 a5 a6 a7 a8 a9
             (nth 0 a' 0) (nth 1 a' 0) (nth 2 a' 0) (nth 3 a' 0) (nth 4 a' 0)
             (nth 5 a' 0) (nth 6 a' 0) (nth 7 a' 0) (nth 8 a' 0) (nth 9 a' 0) t).
  rewrite !Hn by lia.
  match goal with |- _ <= _ + fold_right Rplus 0 (map _ ?d) + _ =>
    pose proof (sum_of_squares_nonneg d) end.
  lra.
Qed.

(** ** Fits of exactly quadratic samples *)

Lemma least_squares_3x3_exact (c0 c1 c2 c3 c4 c5 : dfloat) :
  least_squares w_3x3 (quadratic_stencil_2d [c0; c1; c2; c3; c4; c5]) 9 6 0 6
  = [c0; c1; c2; c3; c4; c5].
Proof.
  cbv [quadratic_stencil_2d stencil_points_2d flat_map map app].
  rewrite least_squares_3x3. cbv [quadratic_2d nth].
  repeat (apply f_equal2; [lra|]). reflexivity.
Qed.

Lemma least_squares_3x3x3_exact (c0 c1 c2 c3 c4 c5 c6 c7 c8 c9 : dfloat) :
  least_squares w_3x3x3
    (quadratic_stencil_3d [c0; c1; c2; c3; c4; c5; c6; c7; c8; c9]) 27 18 0 10
  = [c0; c1; c2; c3; c4; c5; c6; c7; c8; c9].
Proof.
  cbv [quadratic_stencil_3d stencil_points_3d flat_map map app quadratic_3d
       least_squares accumulate w_3x3x3 nth].
  repeat (apply f_equal2; [lra|]). reflexivity.
Qed.

(** X9: on the samples of a quadratic polynomial, the coefficients computed from
    either table are the coefficients of the polynomial. *)
Theorem least_squares_exact :
  (forall c0 c1 c2 c3 c4 c5 : dfloat,
     least_squares w_3x3 (quadratic_stencil_2d [c0; c1; c2; c3; c4; c5]) 9 6 0 6
     = [c0; c1; c2; c3; c4; c5])
  /\ (forall c0 c1 c2 c3 c4 c5 c6 c7 c8 c9 : dfloat,
        least_squares w_3x3x3
          (quadratic_stencil_3d [c0; c1; c2; c3; c4; c5; c6; c7; c8; c9]) 27 18 0 10
        = [c0; c1; c2; c3; c4; c5; c6; c7; c8; c9]).
Proof.
  split.
  - exact least_squares_3x3_exact.
  - exact least_squares_3x3x3_exact.
Qed.

Lemma solve_2d_paraboloid (k cx cy a0 a1 a2 a3 a4 a5 x y val : R) :
  a1 = 2 * k * cx -> a2 = 2 * k * cy -> a3 = - k -> a4 = - k -> a5 = 0 ->
  k <> 0 ->
  -0.75 <= cx <= 0.75 -> -0.75 <= cy <= 0.75 ->
  solve_2d a0 a1 a2 a3 a4 a5 x y val
  = mk_fit_3x3 true cx cy (a0 + k * cx * cx + k * cy * cy).
Proof.
  intros -> -> -> -> -> Hk Hx Hy. unfold solve_2d.
  assert (Hd : 0 * 0 - 4 * - k * - k <> 0) by nra.
  replace (0 * 0 - 4 * - k * - k =? 0) with false by (symmetry; now apply Reqb_false).
  replace ((2 * - k * (2 * k * cx) - 0 * (2 * k * cy)) / (0 * 0 - 4 * - k * - k))
    with cx by (field; nra).
  replace ((2 * - k * (2 * k * cy) - 0 * (2 * k * cx)) / (0 * 0 - 4 * - k * - k))
    with cy by (field; nra).
  Rdecide. cbn [orb]. f_equal. ring.
Qed.

(** X10: a constant or planar neighbourhood has no extremum: [quadratic_fit_3x3]
    rejects it and leaves its three out-parameters as they were. *)
Theorem quadratic_fit_3x3_rejects_planes (c0 c1 c2 x y val : dfloat) :
  quadratic_fit_3x3 (quadratic_stencil_2d [c0; c1; c2; 0; 0; 0]) x y val
  = mk_fit_3x3 false x y val.
Proof.
  unfold quadratic_fit_3x3.
  rewrite least_squares_3x3_exact.
  cbn [nth]. unfold solve_2d. Rdecide. reflexivity.
Qed.

(** ** Recovering a paraboloid *)

(** The five samples of the 2D neighbourhood that the separable fits read,
    and its centre, in terms of the buffer of the joint fit. *)
Lemma stencil_2d_lines (img : Image) (p : Z) :
  line_samples img p 0
  = [nth 3 (stencil_2d img p) 0; nth 4 (stencil_2d img p) 0; nth 5 (stencil_2d img p) 0]
  /\ line_samples img p 1
     = [nth 1 (stencil_2d img p) 0; nth 4 (stencil_2d img p) 0; nth 7 (stencil_2d img p) 0]
  /\ Data img p = nth 4 (stencil_2d img p) 0.
Proof.
  cbv [line_samples stencil_2d flat_map map app nth].
  repeat split; repeat (f_equal; try lia).
Qed.

(** X11: the joint parabolic fit, through [SubpixelLocationInternal], on a
    neighbourhood that samples the paraboloid [v - ((x-cx)^2 + (y-cy)^2)] with
    the peak within 0.75 of the candidate: the peak and its height. *)
Theorem parabolic_fit_recovers_paraboloid Solve (img : Image) (p0 p1 : N) (p : Z)
  (cx cy v : dfloat) :
  Dimensionality img = 2%nat ->
  Pointer img [p0; p1]%N = Ok p ->
  stencil_2d img p = paraboloid_stencil cx cy v ->
  -0.75 <= cx <= 0.75 ->
  -0.75 <= cy <= 0.75 ->
  SubpixelLocationInternal Solve img [p0; p1]%N PARABOLIC false
  = Ok (mk_result [to_dfloat p0 + cx; to_dfloat p1 + cy] v).
Proof.
  intros Hd Hp Hst Hx Hy.
  destruct (stencil_2d_lines img p) as (_ & _ & Hraw).
  unfold SubpixelLocationInternal, joint_fit. rewrite Hp, Hd. cbn [bind].
  rewrite Hraw, Hst.
  rewrite (quadratic_fit_3x3_coefficients _ _ _ _ _ _ _ _ _ _
             (paraboloid_coefficients cx cy v)).
  rewrite (solve_2d_paraboloid 1 cx cy); try lra.
  cbn [fit2_ok fit2_x fit2_y fit2_val undo_log bind].
  unfold set_value, set_coordinate. cbn [coordinates value repeat assign nth].
  cbv [paraboloid_stencil flat_map map app nth paraboloid_2d].
  unfold std_max.
  match goal with |- context [if ?c then _ else _] => destruct c eqn:E end.
  - apply f_equal. apply f_equal2; [reflexivity | ring].
  - apply Rltb_false in E. apply f_equal. apply f_equal2; [reflexivity | nra].
Qed.

(** X12: the separable parabolic fit on the same neighbourhood, wherever the peak
    is: the coordinates are those of the peak, and the value is the larger of
    the heights of the two one-dimensional parabolas through the candidate,
    which is below the peak by the smaller of [cx^2] and [cy^2]. *)
Theorem separable_fit_on_paraboloid Solve (img : Image) (p0 p1 : N) (p : Z)
  (cx cy v : dfloat) :
  Dimensionality img = 2%nat ->
  Pointer img [p0; p1]%N = Ok p ->
  stencil_2d img p = paraboloid_stencil cx cy v ->
  SubpixelLocationInternal Solve img [p0; p1]%N PARABOLIC_SEPARABLE false
  = Ok (mk_result [to_dfloat p0 + cx; to_dfloat p1 + cy]
          (std_max (v - cy * cy) (v - cx * cx))).
Proof.
  intros Hd Hp Hst.
  destruct (stencil_2d_lines img p) as (Hl0 & Hl1 & Hraw).
  unfold SubpixelLocationInternal. rewrite Hp, Hd. cbn [bind for_loop].
  unfold separable_axis. rewrite Hl0, Hl1, Hraw, Hst.
  cbv [paraboloid_stencil flat_map map app nth paraboloid_2d].
  cbn [bind]. unfold set_value, set_coordinate. cbn [coordinates value repeat assign nth].
  Rdecide. cbn [negb bind coordinates value assign nth].
  Rdecide. cbn [negb bind coordinates value assign nth].
  apply f_equal. apply f_equal2; [apply f_equal2; [|apply f_equal2; [|reflexivity]]|].
  - field; lra.
  - field; lra.
  - match goal with |- std_max (std_max ?r ?b0) ?b1 = _ =>
      replace b0 with (v - cy * cy) by (field; lra);
      replace b1 with (v - cx * cx) by (field; lra);
      replace (std_max r (v - cy * cy)) with (v - cy * cy); [reflexivity|]
    end.
    unfold std_max.
    match goal with |- context [if ?c then _ else _] => destruct c eqn:E end; auto.
    apply Rltb_false in E. nra.
Qed.

Lemma paraboloid_3d_coefficients (cx cy cz v : dfloat) :
  least_squares w_3x3x3 (paraboloid_stencil_3d cx cy cz v) 27 18 0 10
  = [v - cx * cx - cy * cy - cz * cz; 2 * cx; 2 * cy; 2 * cz; -1; -1; -1; 0; 0; 0].
Proof.
  rewrite <- (least_squares_3x3x3_exact (v - cx * cx - cy * cy - cz * cz)
                (2 * cx) (2 * cy) (2 * cz) (-1) (-1) (-1) 0 0 0).
  f_equal.
  cbv [paraboloid_stencil_3d quadratic_stencil_3d stencil_points_3d flat_map map app
       paraboloid_3d quadratic_3d nth].
  repeat (apply f_equal2; [ring|]). reflexivity.
Qed.

(** X13: [quadratic_fit_3x3x3], with a solver that solves the 3x3 system, on the
    27 samples of the paraboloid [v - ((x-cx)^2 + (y-cy)^2 + (z-cz)^2)] with
    the peak within 0.75 of the centre: the peak and its height. *)
Theorem quadratic_fit_3x3x3_paraboloid Solve (cx cy cz v x0 y0 z0 val0 : dfloat) :
  Solve_solves Solve ->
  -0.75 <= cx <= 0.75 ->
  -0.75 <= cy <= 0.75 ->
  -0.75 <= cz <= 0.75 ->
  quadratic_fit_3x3x3 Solve (paraboloid_stencil_3d cx cy cz v) x0 y0 z0 val0
  = mk_fit_3x3x3 true cx cy cz v.
Proof.
  intros HS Hx Hy Hz. unfold quadratic_fit_3x3x3.
  rewrite paraboloid_3d_coefficients.
  set (a := [v - cx * cx - cy * cy - cz * cz; 2 * cx; 2 * cy; 2 * cz; -1; -1; -1; 0; 0; 0]).
  assert (Hsol := HS (gradient_matrix a) (gradient_rhs a)).
  set (c := Solve 3%nat 3%nat (gradient_matrix a) (gradient_rhs a)) in *.
  assert (Hc : nth 0 c 0 = cx /\ nth 1 c 0 = cy /\ nth 2 c 0 = cz).
  { assert (E : mat_vec3 (gradient_matrix a) c = gradient_rhs a).
    { apply Hsol.
      - reflexivity.
      - repeat split; reflexivity.
      - cbv [det3 gradient_matrix a nth]. lra. }
    cbv [mat_vec3 gradient_matrix gradient_rhs a seq map nth Nat.mul Nat.add] in E.
    injection E as E0 E1 E2.
    cbv [nth]. repeat split; lra. }
  destruct Hc as (-> & -> & ->). cbv [a nth].
  Rdecide. cbn [orb]. f_equal. ring.
Qed.

Lemma Solve_cramer_solves : Solve_solves Solve_cramer.
Proof.
  intros A b Hb _ Hdet.
  destruct b as [|b0 [|b1 [|b2 [|]]]]; try discriminate.
  unfold Solve_cramer.
  replace (det3 A =? 0) with false by (symmetry; now apply Reqb_false).
  revert Hdet.
  cbv [mat_vec3 replace_column det3 seq map nth Nat.mul Nat.add Nat.eqb Nat.modulo
       Nat.div Nat.divmod fst snd Nat.sub].
  intros Hdet.
  repeat (apply f_equal2; [field; exact Hdet|]). reflexivity.
Qed.

(** ** Recovering a Gaussian *)

Lemma g1_pos (x : dfloat) : 0 < g1 x.
Proof. apply exp_pos. Qed.

Lemma g1_le_1 (x : dfloat) : g1 x <= 1.
Proof.
  unfold g1. rewrite <- exp_0.
  destruct (Req_dec (-0.5 * x * x) 0) as [-> | Hne]; [lra|].
  left. apply exp_increasing. nra.
Qed.

Lemma gaussian_2d_pos (cx cy v x y : dfloat) : 0 < v -> 0 < gaussian_2d cx cy v x y.
Proof.
  intros Hv. unfold gaussian_2d.
  apply Rmult_lt_0_compat; [apply Rmult_lt_0_compat|]; auto using g1_pos.
Qed.

Lemma ln_gaussian_2d (cx cy v x y : dfloat) :
  0 < v ->
  ln (gaussian_2d cx cy v x y)
  = quadratic_2d [ln v - (cx * cx + cy * cy) / 2; cx; cy; -1/2; -1/2; 0] x y.
Proof.
  intros Hv. unfold gaussian_2d.
  rewrite ln_mult by (try apply Rmult_lt_0_compat; auto using g1_pos).
  rewrite ln_mult by auto using g1_pos.
  unfold g1. rewrite !ln_exp. cbv [quadratic_2d nth]. lra.
Qed.

Lemma log_transform_positive (t : list dfloat) :
  Forall (fun x => 0 < x) t ->
  log_transform t (List.length t) false = Ok (map ln t).
Proof.
  induction 1 as [|x t Hx _ IH]; simpl; auto.
  unfold std_log. replace (0 <? x) with true by (symmetry; now apply Rltb_true).
  cbn [bind]. now rewrite IH.
Qed.

Lemma log_gaussian_stencil (cx cy v : dfloat) :
  0 < v ->
  log_transform (gaussian_stencil cx cy v) 9 false
  = Ok (quadratic_stencil_2d [ln v - (cx * cx + cy * cy) / 2; cx; cy; -1/2; -1/2; 0]).
Proof.
  intros Hv.
  change 9%nat with (List.length (gaussian_stencil cx cy v)).
  rewrite log_transform_positive.
  - f_equal. unfold gaussian_stencil, quadratic_stencil_2d. rewrite map_map.
    apply map_ext. intros [x y]. now apply ln_gaussian_2d.
  - unfold gaussian_stencil. apply Forall_map, Forall_forall.
    intros [x y] _. now apply gaussian_2d_pos.
Qed.

(** X14: the joint Gaussian fit, through [SubpixelLocationInternal], on a
    neighbourhood that samples the Gaussian [v * g1(x-cx) * g1(y-cy)] of
    positive height with the peak within 0.75 of the candidate: the peak and
    its height. *)
Theorem gaussian_fit_recovers_gaussian Solve (img : Image) (p0 p1 : N) (p : Z)
  (cx cy v : dfloat) :
  Dimensionality img = 2%nat ->
  Pointer img [p0; p1]%N = Ok p ->
  stencil_2d img p = gaussian_stencil cx cy v ->
  0 < v ->
  -0.75 <= cx <= 0.75 ->
  -0.75 <= cy <= 0.75 ->
  SubpixelLocationInternal Solve img [p0; p1]%N GAUSSIAN false
  = Ok (mk_result [to_dfloat p0 + cx; to_dfloat p1 + cy] v).
Proof.
  intros Hd Hp Hst Hv Hx Hy.
  destruct (stencil_2d_lines img p) as (_ & _ & Hraw).
  unfold SubpixelLocationInternal, joint_fit. rewrite Hp, Hd. cbn [bind].
  rewrite Hraw, Hst.
  assert (Hc : nth 4 (gaussian_stencil cx cy v) 0 = gaussian_2d cx cy v 0 0)
    by reflexivity.
  rewrite Hc.
  replace (gaussian_2d cx cy v 0 0 <? 0) with false
    by (symmetry; apply Rltb_false; left; now apply gaussian_2d_pos).
  rewrite log_gaussian_stencil by assumption. cbn [bind].
  unfold quadratic_fit_3x3. rewrite least_squares_3x3_exact. cbn [nth].
  rewrite (solve_2d_paraboloid (1/2) cx cy); try lra.
  cbn [fit2_ok fit2_x fit2_y fit2_val undo_log].
  unfold set_value, set_coordinate. cbn [coordinates value repeat assign nth].
  replace (ln v - (cx * cx + cy * cy) / 2 + 1 / 2 * cx * cx + 1 / 2 * cy * cy)
    with (ln v) by field.
  rewrite exp_ln by assumption.
  cbn [bind]. unfold set_value. cbn [coordinates value].
  apply f_equal. apply f_equal2; [reflexivity|].
  assert (Hle : gaussian_2d cx cy v 0 0 <= v).
  { unfold gaussian_2d.
    pose proof (g1_le_1 (0 - cx)). pose proof (g1_le_1 (0 - cy)).
    pose proof (g1_pos (0 - cx)). pose proof (g1_pos (0 - cy)).
    replace v with (v * 1 * 1) at 2 by ring.
    apply Rmult_le_compat; try nra. }
  unfold std_max.
  match goal with |- context [if ?c then _ else _] => destruct c eqn:E end; auto.
  apply Rltb_false in E. lra.
Qed.

(** ** Where [MeanShift] stops *)

Lemma MeanShift_loop_spec Resample (img : Image) (epsilon : dfloat) :
  forall fuel pt steps pt' steps',
    MeanShift_loop Resample fuel img epsilon pt steps = Some (pt', steps')
    <-> exists n,
          steps' = (steps + S n)%nat /\ (n < fuel)%nat
          /\ pt' = MeanShift_path Resample img (S n) pt
          /\ (forall j, (j < n)%nat ->
                epsilon < norm_square (Resample img (MeanShift_path Resample img j pt)))
          /\ norm_square (Resample img (MeanShift_path Resample img n pt)) <= epsilon.
Proof.
  induction fuel as [|f IH]; intros pt steps pt' steps'.
  - simpl. split; [discriminate|]. intros (n & _ & Hn & _). lia.
  - cbn [MeanShift_loop].
    destruct (norm_square (Resample img pt) >? epsilon) eqn:E.
    + apply Rltb_true in E. rewrite IH. split.
      * intros (n & Hs & Hn & Hp & Hbig & Hsmall).
        exists (S n). repeat split; auto; try lia.
        intros [|j] Hj; [exact E | apply Hbig; lia].
      * intros (n & Hs & Hn & Hp & Hbig & Hsmall).
        destruct n as [|n]; [simpl in Hsmall; lra|].
        exists n. repeat split; auto; try lia.
        intros j Hj. apply (Hbig (S j)). lia.
    + apply Rltb_false in E. split.
      * intros H. injection H as <- <-.
        exists 0%nat. repeat split; auto; try lia.
      * intros (n & Hs & Hn & Hp & Hbig & Hsmall).
        destruct n as [|n].
        -- subst. f_equal. f_equal. lia.
        -- specialize (Hbig 0%nat ltac:(lia)). simpl in Hbig. lra.
Qed.

(** X15: [MeanShift] returns the first point of the trajectory that is reached by
    a displacement of squared norm at most [epsilon] squared, every earlier
    displacement being larger; and it returns nothing else. *)
Theorem MeanShift_stops_at_first_small_step Resample (fuel : nat) (img : Image)
  (start : FloatArray) (epsilon : dfloat) (pt : FloatArray) :
  ~ MeanShift_rejects img start epsilon ->
  (MeanShift Resample fuel img start epsilon = Ok (Some pt)
   <-> exists n,
         (n < fuel)%nat
         /\ pt = MeanShift_path Resample img (S n) start
         /\ (forall j, (j < n)%nat ->
               epsilon * epsilon
               < norm_square (Resample img (MeanShift_path Resample img j start)))
         /\ norm_square (Resample img (MeanShift_path Resample img n start))
            <= epsilon * epsilon).
Proof.
  intros Hok. rewrite MeanShift_accepts by assumption.
  destruct (MeanShift_loop Resample fuel img (epsilon * epsilon) start 0)
    as [[q steps]|] eqn:E.
  - apply MeanShift_loop_spec in E as (n & Hs & Hn & Hp & Hbig & Hsmall).
    simpl. split.
    + intros H. injection H as <-. exists n. auto.
    + intros (m & Hm & Hq & Hbig' & Hsmall').
      assert (m = n).
      { destruct (Nat.lt_total m n) as [Hlt | [Heq | Hgt]]; auto.
        - specialize (Hbig m Hlt). lra.
        - specialize (Hbig' n Hgt). lra. }
      subst. reflexivity.
  - simpl. split; [discriminate|].
    intros (n & Hn & Hp & Hbig & Hsmall).
    assert (H : MeanShift_loop Resample fuel img (epsilon * epsilon) start 0
                = Some (pt, (0 + S n)%nat)).
    { apply MeanShift_loop_spec. exists n. auto. }
    rewrite H in E. discriminate.
Qed.

Lemma MeanShift_stops_at_first_small_step_witness :
  MeanShift zero_field 1 field_4x4 [1.5; 2] 0.01 = Ok (Some [1.5; 2])
  <-> exists n,
        (n < 1)%nat
        /\ [1.5; 2] = MeanShift_path zero_field field_4x4 (S n) [1.5; 2]
        /\ (forall j, (j < n)%nat ->
              0.01 * 0.01
              < norm_square (zero_field field_4x4 (MeanShift_path zero_field field_4x4 j [1.5; 2])))
        /\ norm_square (zero_field field_4x4 (MeanShift_path zero_field field_4x4 n [1.5; 2]))
           <= 0.01 * 0.01.
Proof.
  apply (MeanShift_stops_at_first_small_step zero_field 1 field_4x4 [1.5; 2] 0.01 [1.5; 2]).
  exact field_4x4_accepted.
Defined.

(** ** [Find] *)

Lemma Find_loop_filter (test : UnsignedArray -> bool) (sizes : UnsignedArray) :
  forall out, Find_loop test sizes out = out ++ filter test (all_coordinates sizes).
Proof.
  unfold Find_loop. induction (all_coordinates sizes) as [|c l IH]; intros out; simpl.
  - now rewrite app_nil_r.
  - rewrite IH. destruct (test c); auto. now rewrite <- app_assoc.
Qed.

Lemma all_coordinates_In (sizes : UnsignedArray) :
  forall c, In c (all_coordinates sizes) <-> Forall2 N.lt c sizes.
Proof.
  induction sizes as [|n rest IH]; intros c; simpl.
  - split.
    + intros [<- | []]. constructor.
    + intros H. inversion H. now left.
  - rewrite in_flat_map. split.
    + intros (tail & Htail & Hc). apply in_map_iff in Hc as (i & <- & Hi).
      apply in_seq in Hi. constructor; [lia | now apply IH].
    + intros H. inversion H as [|x n' tail rest' Hx Htail]; subst.
      exists tail. split; [now apply IH|].
      apply in_map_iff. exists (N.to_nat x). split.
      * now rewrite N2Nat.id.
      * apply in_seq. lia.
Qed.

Lemma NoDup_map_injective {A B : Type} (f : A -> B) (l : list A) :
  (forall x y, f x = f y -> x = y) -> NoDup l -> NoDup (map f l).
Proof.
  intros Hinj. induction 1 as [|x l Hx _ IH]; simpl; constructor; auto.
  rewrite in_map_iff. intros (y & E & Hy). apply Hinj in E. now subst.
Qed.

Lemma all_coordinates_NoDup (sizes : UnsignedArray) : NoDup (all_coordinates sizes).
Proof.
  induction sizes as [|n rest IH]; simpl.
  - repeat constructor. intros [].
  - induction IH as [|tail tails Htail _ IHt]; simpl; [constructor|].
    apply NoDup_app; auto.
    + apply NoDup_map_injective; [|apply seq_NoDup].
      intros x y E. injection E as E. now apply Nat2N.inj.
    + intros c Hc Hc'. apply in_map_iff in Hc as (i & <- & _).
      apply in_flat_map in Hc' as (tail' & Ht' & Hc').
      apply in_map_iff in Hc' as (i' & E & _). injection E as _ ->. contradiction.
Qed.

Lemma Forall2_in_bounds (img : Image) (c : UnsignedArray) :
  Forall2 N.lt c (Sizes img)
  <-> List.length c = Dimensionality img /\ in_bounds img c.
Proof.
  unfold in_bounds, Dimensionality, Size. generalize (Sizes img) as sizes.
  induction c as [|x c IH]; intros [|n sizes]; simpl.
  - split; [intros _; split; auto; intros ii Hii; lia | constructor].
  - split; [intros H; inversion H | intros [H _]; discriminate].
  - split; [intros H; inversion H | intros [H _]; discriminate].
  - split.
    + intros H. inversion H as [|? ? ? ? Hx Hc]; subst.
      apply IH in Hc as [Hl Hb]. split; [now rewrite Hl|].
      intros [|ii] Hii; [exact Hx | apply Hb; lia].
    + intros [Hl Hb]. constructor.
      * apply (Hb 0%nat). lia.
      * apply IH. split; [lia|]. intros ii Hii. apply (Hb (S ii)). lia.
Qed.

(** X16: [Find] on a forged scalar image, with no mask or with a scalar binary
    mask of the same sizes, lists each coordinate once, and lists exactly the
    coordinates inside the image whose sample is not zero and, with a mask,
    whose mask sample is set. *)
Theorem Find_lists_nonzero_samples (in_ mask : Image) :
  IsForged in_ = true ->
  IsScalar in_ = true ->
  IsForged mask = false
  \/ (IsScalar mask = true /\ DataType_of mask = DT_BIN /\ Sizes mask = Sizes in_) ->
  exists out,
    Find in_ mask = Ok out
    /\ NoDup out
    /\ forall c,
         In c out
         <-> (List.length c = Dimensionality in_ /\ in_bounds in_ c
              /\ Data in_ (offset_sum in_ c 0) <> 0
              /\ (IsForged mask = true -> Data mask (offset_sum mask c 0) <> 0)).
Proof.
  intros Hf Hs Hmask. unfold Find, THROW_IF. rewrite Hf, Hs. cbn [negb].
  assert (Hnz : forall img c, sample_nonzero img c = true
                              <-> Data img (offset_sum img c 0) <> 0).
  { intros img c. unfold sample_nonzero. rewrite negb_true_iff. apply Reqb_false. }
  destruct Hmask as [Hm | (Hms & Hmb & Hmz)].
  - rewrite Hm. cbn [negb]. eexists. split; [reflexivity|].
    rewrite Find_loop_filter. cbn [app]. split.
    + apply NoDup_filter, all_coordinates_NoDup.
    + intros c. rewrite filter_In, all_coordinates_In, Forall2_in_bounds, Hnz.
      split; [intros [[? ?] ?]; repeat split; auto; discriminate | tauto].
  - destruct (IsForged mask) eqn:Hm; cbn [negb].
    + unfold CheckIsMask, THROW_IF. rewrite Hms, Hmb. cbn [negb is_binary].
      destruct (list_eq_dec N.eq_dec (Sizes mask) (Sizes in_)); [|contradiction].
      cbn [negb bind]. eexists. split; [reflexivity|].
      rewrite Find_loop_filter. cbn [app]. split.
      * apply NoDup_filter, all_coordinates_NoDup.
      * intros c. rewrite filter_In, all_coordinates_In, Forall2_in_bounds.
        rewrite andb_true_iff, !Hnz. tauto.
    + eexists. split; [reflexivity|].
      rewrite Find_loop_filter. cbn [app]. split.
      * apply NoDup_filter, all_coordinates_NoDup.
      * intros c. rewrite filter_In, all_coordinates_In, Forall2_in_bounds, Hnz.
        split; [intros [[? ?] ?]; repeat split; auto; discriminate | tauto].
Qed.

(** ** [SubpixelExtrema] *)

Lemma SubpixelExtrema_checks Solve Measure round_cast (in_ mask : Image)
  (s_method : string) (invert : bool) :
  valid_image in_ ->
  SubpixelExtrema Solve Measure round_cast in_ mask s_method invert
  = (method <- ParseMethod s_method (Dimensionality in_) ;;
     measurement <- Measure in_ mask invert ;;
     mapM (locate_extremum Solve round_cast in_ method invert) measurement).
Proof.
  intros [Hf Hs Hr Hd Hsz]. unfold SubpixelExtrema, THROW_IF.
  rewrite Hf, Hs, Hr. cbn [negb].
  replace (Nat.ltb (Dimensionality in_) 1) with false
    by (symmetry; apply Nat.ltb_ge; lia).
  destruct (ParseMethod s_method (Dimensionality in_)) as [method| |]; try reflexivity.
  cbn [bind]. destruct (Measure in_ mask invert) as [[|e l]| |]; reflexivity.
Qed.

(** X17: an unknown method name makes [SubpixelExtrema] throw whatever the image
    holds and whatever the detection of the extrema would give: the name is
    parsed first. *)
Theorem SubpixelExtrema_unknown_method Solve Measure round_cast (in_ mask : Image)
  (s_method : string) (invert : bool) :
  valid_image in_ ->
  recognized_method s_method = false ->
  SubpixelExtrema Solve Measure round_cast in_ mask s_method invert
  = Throw (INVALID_FLAG s_method).
Proof.
  intros Hv Hu. rewrite SubpixelExtrema_checks by assumption.
  now rewrite ParseMethod_unrecognized.
Qed.

Lemma mapM_map {A B : Type} (f : A -> outcome B) (g : A -> B) (l : list A) :
  Forall (fun x => f x = Ok (g x)) l -> mapM f l = Ok (map g l).
Proof.
  induction 1 as [|x l Hx _ IH]; simpl; auto. now rewrite Hx, IH.
Qed.

(** X18: with the method ["integer"], or when every extremum is a plateau of more
    than one pixel, [SubpixelExtrema] reports the centre and the mean of each
    extremum, in the order of the measurement, and fits nothing. *)
Theorem SubpixelExtrema_without_fit Solve Measure round_cast (in_ mask : Image)
  (s_method : string) (invert : bool) (method : SubpixelExtremumMethod)
  (measurement : list Extremum) :
  valid_image in_ ->
  ParseMethod s_method (Dimensionality in_) = Ok method ->
  Measure in_ mask invert = Ok measurement ->
  method = INTEGER \/ Forall (fun e => 1 < Size_of e) measurement ->
  SubpixelExtrema Solve Measure round_cast in_ mask s_method invert
  = Ok (map (fun e => mk_result (Center e) (Mean e)) measurement).
Proof.
  intros Hv Hm Hmeas Hby. rewrite SubpixelExtrema_checks by assumption.
  rewrite Hm, Hmeas. cbn [bind]. apply mapM_map.
  apply Forall_forall. intros e He. unfold locate_extremum, bypasses_fit.
  destruct Hby as [-> | Hall]; [reflexivity|].
  rewrite Forall_forall in Hall. specialize (Hall e He).
  replace (Size_of e >? 1) with true by (symmetry; now apply Rltb_true).
  now rewrite orb_true_r.
Qed.

Lemma mapM_Forall2 {A B : Type} (f : A -> outcome B) (l : list A) (out : list B) :
  mapM f l = Ok out -> Forall2 (fun x y => f x = Ok y) l out.
Proof.
  revert out; induction l as [|x l IH]; intros out H; simpl in H.
  - injection H as <-. constructor.
  - apply bind_Ok_inv in H as (y & Hy & H).
    apply bind_Ok_inv in H as (ys & Hys & H). injection H as <-.
    constructor; auto.
Qed.


Lemma SubpixelLocationInternal_illegal Solve (img : Image) (position : UnsignedArray)
  (method : SubpixelExtremumMethod) (invert : bool) :
  is_joint method = true ->
  Dimensionality img <> 2%nat -> Dimensionality img <> 3%nat ->
  exists e, SubpixelLocationInternal Solve img position method invert = Throw e.
Proof.
  intros Hj H2 H3. unfold SubpixelLocationInternal.
  destruct (Pointer img position) as [p|e|] eqn:Hp; cbn [bind].
  - destruct method; try discriminate; rewrite joint_fit_illegal by assumption;
      cbn [bind]; eauto.
  - eauto.
  - exfalso. unfold Pointer, Offset, THROW_IF in Hp.
    destruct (negb _); [discriminate|]. destruct (negb _); discriminate.
Qed.

Lemma mapM_throws {A B : Type} (f : A -> outcome B) (l : list A) :
  Forall (fun x => (exists y, f x = Ok y) \/ (exists e, f x = Throw e)) l ->
  Exists (fun x => exists e, f x = Throw e) l ->
  exists e, mapM f l = Throw e.
Proof.
  induction 1 as [|x l Hx Hl IH]; intros Hex; [inversion Hex|]. simpl.
  destruct Hx as [(y & Hy) | (e & He)].
  - rewrite Hy. cbn [bind].
    inversion Hex as [? ? (e & He) | ? ? Hex']; subst.
    + rewrite Hy in He. discriminate He.
    + destruct (IH Hex') as (e & ->). cbn [bind]. eauto.
  - rewrite He. cbn [bind]. eauto.
Qed.

(** X20: a joint method on an image of dimensionality other than 2 and 3 makes
    [SubpixelExtrema] throw as soon as the measurement holds one extremum of
    a single pixel: the error of that extremum ends the whole call. *)
Theorem SubpixelExtrema_joint_unsupported Solve Measure round_cast (in_ mask : Image)
  (s_method : string) (invert : bool) (method : SubpixelExtremumMethod)
  (measurement : list Extremum) :
  valid_image in_ ->
  ParseMethod s_method (Dimensionality in_) = Ok method ->
  is_joint method = true ->
  Dimensionality in_ <> 2%nat -> Dimensionality in_ <> 3%nat ->
  Measure in_ mask invert = Ok measurement ->
  Exists (fun e => Size_of e <= 1) measurement ->
  exists e, SubpixelExtrema Solve Measure round_cast in_ mask s_method invert = Throw e.
Proof.
  intros Hv Hm Hj H2 H3 Hmeas Hex. rewrite SubpixelExtrema_checks by assumption.
  rewrite Hm, Hmeas. cbn [bind].
  assert (Hmethod : match method with INTEGER => true | _ => false end = false)
    by (destruct method; auto; discriminate).
  apply mapM_throws.
  - apply Forall_forall. intros e _. unfold locate_extremum, bypasses_fit. rewrite Hmethod.
    destruct (Size_of e >? 1); cbn [orb]; [left; eauto|].
    right. now apply SubpixelLocationInternal_illegal.
  - apply Exists_exists in Hex as (e & He & Hsz). apply Exists_exists.
    exists e. split; auto. unfold locate_extremum, bypasses_fit. rewrite Hmethod.
    replace (Size_of e >? 1) with false by (symmetry; now apply Rltb_false).
    cbn [orb]. now apply SubpixelLocationInternal_illegal.
Qed.

(** ** The DIPimage interface *)

Lemma ParseMethod_joint_inv (s : string) (nDims : nat) (method : SubpixelExtremumMethod) :
  ParseMethod s nDims = Ok method -> is_joint method = true ->
  s = S_PARABOLIC \/ s = S_GAUSSIAN.
Proof.
  unfold ParseMethod.
  repeat match goal with
    | |- context [String.eqb ?a ?b] =>
        destruct (String.eqb_spec a b); [subst|]; cbn [bind]
    end;
    destruct (Nat.eqb nDims 1); intros H Hj; try discriminate;
    injection H as <-; try discriminate; auto.
Qed.

(** X22: through the interface the name ["parabolic"] selects the separable
    parabolic fit and ["gaussian"] the separable Gaussian fit, in every
    dimensionality; a joint fit is selected by the four "nonseparable" names
    only. *)
Theorem dipimage_method_names :
  (forall nDims, ParseMethod (dipimage_method "parabolic") nDims = Ok PARABOLIC_SEPARABLE)
  /\ (forall nDims, ParseMethod (dipimage_method "gaussian") nDims = Ok GAUSSIAN_SEPARABLE)
  /\ (forall s nDims method,
        ParseMethod (dipimage_method s) nDims = Ok method ->
        is_joint method = true ->
        In s ["parabolic nonseparable"; "parabolic_nonseparable";
              "gaussian nonseparable"; "gaussian_nonseparable"]%string).
Proof.
  split; [|split].
  - intros nDims. unfold ParseMethod; simpl. destruct (Nat.eqb nDims 1); reflexivity.
  - intros nDims. unfold ParseMethod; simpl. destruct (Nat.eqb nDims 1); reflexivity.
  - intros s nDims method. unfold dipimage_method.
    destruct (String.eqb_spec s "parabolic nonseparable"); [subst; simpl; auto|].
    destruct (String.eqb_spec s "parabolic_nonseparable"); [subst; simpl; auto|].
    destruct (String.eqb_spec s "gaussian nonseparable"); [subst; simpl; auto|].
    destruct (String.eqb_spec s "gaussian_nonseparable"); [subst; simpl; auto 6|].
    cbn [orb].
    destruct (String.eqb_spec s "parabolic").
    { intros H Hj. apply ParseMethod_joint_inv in H as [H | H]; auto; discriminate. }
    destruct (String.eqb_spec s "gaussian").
    { intros H Hj. apply ParseMethod_joint_inv in H as [H | H]; auto; discriminate. }
    intros H Hj. apply ParseMethod_joint_inv in H as [H | H]; auto; contradiction.
Qed.

Lemma subpixlocation_use_false (img : Image) (coords : UnsignedArray) :
  forall count jj, subpixlocation_use img coords jj count false = false.
Proof.
  induction count as [|c IH]; intros jj; simpl; auto.
  destruct (_ || _); apply IH.
Qed.

Lemma subpixlocation_use_border (img : Image) (coords : UnsignedArray) (bb : nat) :
  (1 <= Size img bb < 2 ^ 64)%N ->
  (nth bb coords 0 = 0 \/ Size img bb <= nth bb coords 0 + 1)%N ->
  forall count jj use,
    (jj <= bb < jj + count)%nat ->
    subpixlocation_use img coords jj count use = false.
Proof.
  intros Hsz Hb. induction count as [|c IH]; intros jj use Hjj; [lia|]. simpl.
  destruct (Nat.eq_dec jj bb) as [->|Hne].
  - rewrite uint_sub_1 by assumption.
    replace (N.eqb (nth bb coords 0%N) 0 || N.leb (Size img bb - 1) (nth bb coords 0%N))
      with true.
    + apply subpixlocation_use_false.
    + symmetry. apply orb_true_iff. destruct Hb as [Hb | Hb].
      * left. now apply N.eqb_eq.
      * right. apply N.leb_le. lia.
  - apply IH. lia.
Qed.

Lemma subpixlocation_use_interior (img : Image) (coords : UnsignedArray) :
  (forall ii, (Size img ii < 2 ^ 64)%N) ->
  forall count jj,
    (forall ii, (jj <= ii < jj + count)%nat ->
                (1 <= nth ii coords 0)%N /\ (nth ii coords 0 + 1 < Size img ii)%N) ->
    subpixlocation_use img coords jj count true = true.
Proof.
  intros Hsz. induction count as [|c IH]; intros jj H; simpl; auto.
  destruct (H jj ltac:(lia)) as [H1 H2].
  rewrite uint_sub_1 by (split; [lia | apply Hsz]).
  replace (N.eqb (nth jj coords 0%N) 0) with false by (symmetry; apply N.eqb_neq; lia).
  replace (N.leb (Size img jj - 1) (nth jj coords 0%N)) with false
    by (symmetry; apply N.leb_gt; lia).
  simpl. apply IH. intros ii Hii. apply H. lia.
Qed.

Lemma subpixlocation_one_border Solve (img : Image) (polarity method : string)
  (coords : UnsignedArray) (bb : nat) :
  (bb < Dimensionality img)%nat ->
  (1 <= Size img bb < 2 ^ 64)%N ->
  (nth bb coords 0 = 0 \/ Size img bb <= nth bb coords 0 + 1)%N ->
  subpixlocation_one Solve img polarity method coords
  = Ok (mk_result (map to_dfloat coords) 0).
Proof.
  intros Hbb Hsz Hb. unfold subpixlocation_one.
  rewrite (subpixlocation_use_border img coords bb) by (auto; lia).
  reflexivity.
Qed.

(** X23: for coordinates, one per dimension, that are each on the border of
    the image or outside it on some axis, the interface writes the coordinates
    and the value 0 and does not call [SubpixelLocation]: no error, whatever
    the method and polarity arguments. *)
Theorem subpixlocation_border_values Solve (img : Image)
  (coords : list UnsignedArray) (method_arg polarity_arg : option string) :
  (forall ii, (ii < Dimensionality img)%nat -> (1 <= Size img ii < 2 ^ 64)%N) ->
  Forall (fun c => List.length c = Dimensionality img
                   /\ exists bb, (bb < Dimensionality img)%nat
                                 /\ (nth bb c 0 = 0 \/ Size img bb <= nth bb c 0 + 1)%N)
         coords ->
  subpixlocation Solve img coords method_arg polarity_arg
  = Ok (map (fun c => mk_result (map to_dfloat c) 0) coords).
Proof.
  intros Hsz Hall. unfold subpixlocation. apply mapM_map.
  eapply Forall_impl; [|exact Hall].
  intros c (_ & bb & Hbb & Hb). now apply (subpixlocation_one_border _ _ _ _ _ bb); auto.
Qed.

(** X24: for a coordinate away from the border of a valid image, the interface
    gives what [SubpixelLocationInternal] gives for the parsed polarity and
    method: the border branch and the out-of-bounds error of
    [SubpixelLocation] are never reached through it. *)
Theorem subpixlocation_interior Solve (img : Image) (polarity method : string)
  (coords : UnsignedArray) :
  valid_image img ->
  List.length coords = Dimensionality img ->
  interior img coords ->
  subpixlocation_one Solve img polarity method coords
  = (invert <- BooleanFromString polarity S_MINIMUM S_MAXIMUM ;;
     m <- ParseMethod method (Dimensionality img) ;;
     SubpixelLocationInternal Solve img coords m invert).
Proof.
  intros Hv Hlen Hint. unfold subpixlocation_one.
  rewrite subpixlocation_use_interior.
  - now apply SubpixelLocation_interior.
  - apply Hv.
  - intros ii Hii. apply Hint. lia.
Qed.

Lemma mapM_commute {A B : Type} (f f' : A -> outcome B) (g : A -> A) (h : B -> B)
  (l : list A) :
  (forall x, f' (g x) = omap h (f x)) ->
  mapM f' (map g l) = omap (map h) (mapM f l).
Proof.
  intros H. induction l as [|x l IH]; simpl; auto.
  rewrite H, IH. destruct (f x); simpl; auto. destruct (mapM f l); reflexivity.
Qed.

Lemma locate_extremum_negate Solve round_cast (in_ : Image)
  (method : SubpixelExtremumMethod) (e : Extremum) :
  Solve_even Solve ->
  locate_extremum Solve round_cast (negate_image in_) method false (negate_mean e)
  = omap negate_value (locate_extremum Solve round_cast in_ method true e).
Proof.
  intros HS. unfold locate_extremum.
  change (bypasses_fit method (negate_mean e)) with (bypasses_fit method e).
  destruct (bypasses_fit method e); [reflexivity|].
  now apply SubpixelLocationInternal_negate.
Qed.



(** ** The further properties on concrete inputs *)

Lemma valid_line_5 : valid_image line_5.
Proof. apply valid_image_of; [discriminate | repeat constructor]. Qed.

Lemma valid_flat_3x3x3x3 : valid_image flat_3x3x3x3.
Proof. apply valid_image_of; [discriminate | repeat constructor]. Qed.

Lemma SubpixelLocation_integer_witness :
  SubpixelLocation Solve_cramer flat_3x3 [1; 1]%N S_MAXIMUM S_INTEGER
  = Ok (mk_result (map to_dfloat [1; 1]%N)
          (Data flat_3x3 (offset_sum flat_3x3 [1; 1]%N 0))).
Proof.
  apply (SubpixelLocation_integer Solve_cramer flat_3x3 [1; 1]%N S_MAXIMUM false).
  - exact valid_flat_3x3.
  - reflexivity.
  - apply interior_in_bounds, interior_3x3_centre.
  - reflexivity.
Defined.

Lemma SubpixelLocation_linear_value_witness :
  exists res,
    SubpixelLocation Solve_cramer flat_3x3 [1; 1]%N S_MINIMUM S_LINEAR = Ok res
    /\ value res = Data flat_3x3 (offset_sum flat_3x3 [1; 1]%N 0).
Proof.
  apply (SubpixelLocation_linear_value Solve_cramer flat_3x3 [1; 1]%N S_MINIMUM true).
  - exact valid_flat_3x3.
  - reflexivity.
  - apply interior_in_bounds, interior_3x3_centre.
  - reflexivity.
Defined.

Lemma SubpixelLocation_out_of_bounds_witness :
  SubpixelLocation Solve_cramer flat_3x3 [1; 3]%N S_MAXIMUM S_LINEAR
  = Throw (OTHER_ERROR "Initial coordinates out of image bounds").
Proof.
  apply (SubpixelLocation_out_of_bounds Solve_cramer flat_3x3 [1; 3]%N
           S_MAXIMUM S_LINEAR 1).
  - exact valid_flat_3x3.
  - reflexivity.
  - apply Nat.lt_succ_diag_r.
  - intros [|ii] Hii; [|lia].
    change (1 <= 1 /\ 1 + 1 < 3)%N. split; [discriminate | reflexivity].
  - change (1 <= 3 <= 3)%N. split; discriminate.
Defined.

Lemma SubpixelLocation_result_shape_witness :
  IsForged line_5 = true /\ IsScalar line_5 = true /\ IsReal (DataType_of line_5) = true
  /\ (1 <= Dimensionality line_5)%nat
  /\ List.length [2%N] = Dimensionality line_5
  /\ in_bounds line_5 [2]%N
  /\ List.length (coordinates (mk_result [2.1] 4.025)) = Dimensionality line_5.
Proof.
  apply (SubpixelLocation_result_shape Solve_cramer line_5 [2]%N S_MAXIMUM S_PARABOLIC).
  exact one_dimensional_parabolic_result.
Defined.

Lemma SubpixelLocation_no_throw_witness :
  (exists res,
     SubpixelLocation Solve_cramer flat_3x3 [1; 1]%N S_MAXIMUM S_GAUSSIAN = Ok res)
  \/ SubpixelLocation Solve_cramer flat_3x3 [1; 1]%N S_MAXIMUM S_GAUSSIAN = NonReal.
Proof.
  apply (SubpixelLocation_no_throw Solve_cramer flat_3x3 [1; 1]%N S_MAXIMUM S_GAUSSIAN false).
  - exact valid_flat_3x3.
  - apply Nat.le_succ_diag_r.
  - reflexivity.
  - apply interior_in_bounds, interior_3x3_centre.
  - reflexivity.
  - reflexivity.
Defined.

Lemma least_squares_3x3_optimal_witness :
  squared_error_2d (least_squares w_3x3 [0; 1; 0; 1; 5; 1; 0; 1; 2] 9 6 0 6)
    [0; 1; 0; 1; 5; 1; 0; 1; 2]
  <= squared_error_2d [5; 0; 0; -2; -2; 0] [0; 1; 0; 1; 5; 1; 0; 1; 2].
Proof.
  apply (least_squares_3x3_optimal [0; 1; 0; 1; 5; 1; 0; 1; 2] [5; 0; 0; -2; -2; 0]).
  reflexivity.
Defined.

Lemma least_squares_3x3x3_optimal_witness :
  squared_error_3d (least_squares w_3x3x3 (repeat 1 13 ++ 5 :: repeat 1 13) 27 18 0 10)
    (repeat 1 13 ++ 5 :: repeat 1 13)
  <= squared_error_3d [5; 0; 0; 0; -2; -2; -2; 0; 0; 0] (repeat 1 13 ++ 5 :: repeat 1 13).
Proof.
  apply (least_squares_3x3x3_optimal (repeat 1 13 ++ 5 :: repeat 1 13)
           [5; 0; 0; 0; -2; -2; -2; 0; 0; 0]).
  reflexivity.
Defined.

Lemma parabolic_fit_recovers_paraboloid_witness :
  SubpixelLocationInternal Solve_cramer paraboloid_3x3 [1; 1]%N PARABOLIC false
  = Ok (mk_result [to_dfloat 1 + 0.3715; to_dfloat 1 + -0.0396] 4.0125).
Proof.
  apply (parabolic_fit_recovers_paraboloid Solve_cramer paraboloid_3x3 1 1 4
           0.3715 (-0.0396) 4.0125).
  - reflexivity.
  - reflexivity.
  - reflexivity.
  - lra.
  - lra.
Defined.

Lemma separable_fit_on_paraboloid_witness :
  SubpixelLocationInternal Solve_cramer paraboloid_3x3 [1; 1]%N PARABOLIC_SEPARABLE false
  = Ok (mk_result [to_dfloat 1 + 0.3715; to_dfloat 1 + -0.0396]
          (std_max (4.0125 - -0.0396 * -0.0396) (4.0125 - 0.3715 * 0.3715))).
Proof.
  apply (separable_fit_on_paraboloid Solve_cramer paraboloid_3x3 1 1 4
           0.3715 (-0.0396) 4.0125).
  - reflexivity.
  - reflexivity.
  - reflexivity.
Defined.

Lemma quadratic_fit_3x3x3_paraboloid_witness :
  quadratic_fit_3x3x3 Solve_cramer
    (paraboloid_stencil_3d (-0.2953) (-0.0052) 0.4823 16.234) 0 0 0 0
  = mk_fit_3x3x3 true (-0.2953) (-0.0052) 0.4823 16.234.
Proof.
  apply (quadratic_fit_3x3x3_paraboloid Solve_cramer).
  - exact Solve_cramer_solves.
  - lra.
  - lra.
  - lra.
Defined.

Lemma gaussian_fit_recovers_gaussian_witness :
  SubpixelLocationInternal Solve_cramer gaussian_3x3 [1; 1]%N GAUSSIAN false
  = Ok (mk_result [to_dfloat 1 + 0.3715; to_dfloat 1 + -0.0396] 4.0125).
Proof.
  apply (gaussian_fit_recovers_gaussian Solve_cramer gaussian_3x3 1 1 4
           0.3715 (-0.0396) 4.0125).
  - reflexivity.
  - reflexivity.
  - reflexivity.
  - lra.
  - lra.
  - lra.
Defined.

Lemma Find_lists_nonzero_samples_witness :
  exists out,
    Find flat_3x3 raw_image = Ok out
    /\ NoDup out
    /\ forall c,
         In c out
         <-> (List.length c = Dimensionality flat_3x3 /\ in_bounds flat_3x3 c
              /\ Data flat_3x3 (offset_sum flat_3x3 c 0) <> 0
              /\ (IsForged raw_image = true ->
                  Data raw_image (offset_sum raw_image c 0) <> 0)).
Proof.
  apply (Find_lists_nonzero_samples flat_3x3 raw_image).
  - reflexivity.
  - reflexivity.
  - left; reflexivity.
Defined.

Lemma SubpixelExtrema_unknown_method_witness :
  SubpixelExtrema Solve_cramer one_plateau round_nearest flat_3x3 raw_image "nearest" false
  = Throw (INVALID_FLAG "nearest").
Proof.
  apply (SubpixelExtrema_unknown_method Solve_cramer one_plateau round_nearest
           flat_3x3 raw_image "nearest" false).
  - exact valid_flat_3x3.
  - reflexivity.
Defined.

Lemma one_plateau_is_plateau :
  Forall (fun e => 1 < Size_of e) [mk_Extremum [1; 1.5] 3 2].
Proof. repeat constructor. simpl. lra. Qed.

Lemma SubpixelExtrema_without_fit_witness :
  SubpixelExtrema Solve_cramer one_plateau round_nearest flat_3x3 raw_image S_PARABOLIC true
  = Ok (map (fun e => mk_result (Center e) (Mean e)) [mk_Extremum [1; 1.5] 3 2]).
Proof.
  apply (SubpixelExtrema_without_fit Solve_cramer one_plateau round_nearest
           flat_3x3 raw_image S_PARABOLIC true PARABOLIC).
  - exact valid_flat_3x3.
  - reflexivity.
  - reflexivity.
  - right. exact one_plateau_is_plateau.
Defined.

Lemma one_plateau_result :
  SubpixelExtrema Solve_cramer one_plateau round_nearest flat_3x3 raw_image S_PARABOLIC true
  = Ok [mk_result [1; 1.5] 2].
Proof.
  rewrite SubpixelExtrema_checks by exact valid_flat_3x3.
  change (ParseMethod S_PARABOLIC (Dimensionality flat_3x3)) with (@Ok _ PARABOLIC).
  unfold one_plateau. cbn [bind mapM]. unfold locate_extremum, bypasses_fit.
  cbn [Size_of Center Mean]. Rdecide. reflexivity.
Qed.


Lemma SubpixelExtrema_joint_unsupported_witness :
  exists e,
    SubpixelExtrema Solve_cramer one_pixel round_nearest flat_3x3x3x3 raw_image
      S_PARABOLIC false = Throw e.
Proof.
  apply (SubpixelExtrema_joint_unsupported Solve_cramer one_pixel round_nearest
           flat_3x3x3x3 raw_image S_PARABOLIC false PARABOLIC
           [mk_Extremum [1; 1; 1; 1] 1 1]).
  - exact valid_flat_3x3x3x3.
  - reflexivity.
  - reflexivity.
  - discriminate.
  - discriminate.
  - reflexivity.
  - constructor. simpl. lra.
Defined.

Lemma subpixlocation_border_values_witness :
  subpixlocation Solve_cramer flat_3x3 [[0; 1]; [1; 2]; [5; 1]]%N (Some "nearest"%string) None
  = Ok (map (fun c => mk_result (map to_dfloat c) 0) [[0; 1]; [1; 2]; [5; 1]]%N).
Proof.
  apply (subpixlocation_border_values Solve_cramer flat_3x3 [[0; 1]; [1; 2]; [5; 1]]%N
           (Some "nearest"%string) None).
  - intros [|[|ii]] Hii.
    + change (Size flat_3x3 0) with 3%N. split; [discriminate | reflexivity].
    + change (Size flat_3x3 1) with 3%N. split; [discriminate | reflexivity].
    + exfalso. change (S (S ii) < 2)%nat in Hii. lia.
  - apply Forall_cons; [|apply Forall_cons; [|apply Forall_cons; [|apply Forall_nil]]];
      (split; [reflexivity|]).
    + exists 0%nat. split; [apply Nat.lt_0_succ | left; reflexivity].
    + exists 1%nat. split; [apply Nat.lt_succ_diag_r | right].
      change (3 <= 2 + 1)%N. discriminate.
    + exists 0%nat. split; [apply Nat.lt_0_succ | right].
      change (3 <= 5 + 1)%N. discriminate.
Defined.

Lemma subpixlocation_interior_witness :
  subpixlocation_one Solve_cramer paraboloid_3x3 S_MAXIMUM
    (dipimage_method "parabolic nonseparable") [1; 1]%N
  = (invert <- BooleanFromString S_MAXIMUM S_MINIMUM S_MAXIMUM ;;
     m <- ParseMethod (dipimage_method "parabolic nonseparable")
            (Dimensionality paraboloid_3x3) ;;
     SubpixelLocationInternal Solve_cramer paraboloid_3x3 [1; 1]%N m invert).
Proof.
  apply (subpixlocation_interior Solve_cramer paraboloid_3x3 S_MAXIMUM
           (dipimage_method "parabolic nonseparable") [1; 1]%N).
  - exact valid_paraboloid_3x3.
  - reflexivity.
  - apply interior_3x3_centre.
Defined.
